(** * Filtra Selecionados (version 3.0): field selection and subset filters

    A shallow embedding of [Filtra_Selecionados_V3.py], the QGIS plugin that
    restricts a vector layer to its selected features.  Python objects are
    modelled by the data the plugin reads from them; the host (QGIS) is
    modelled by the answers it gives: the records a layer iterates, the rows
    a catalogue query returns, whether an edit session opens, the button the
    user presses. *)

From Stdlib Require Import ZArith Ascii String List Lia Bool.
From stdpp Require Import base decidable countable gmap sets list strings pretty.

Set Warnings "-clear-no-such-hyp".

Local Open Scope Z_scope.
Local Open Scope string_scope.
Local Open Scope list_scope.

(** ** Python strings

    Strings are sequences of 8-bit characters.  [lower], [upper] and
    [strip] are [str.lower], [str.upper] and [str.strip] on ASCII text: they
    act on the code points below 128 and leave every other character as it
    is. *)

Module Py.

Definition lower_ascii (c : ascii) : ascii :=
  let n := nat_of_ascii c in
  if (Nat.leb 65 n && Nat.leb n 90)%bool then ascii_of_nat (n + 32) else c.

Fixpoint lower (s : string) : string :=
  match s with
  | EmptyString => EmptyString
  | String c r => String (lower_ascii c) (lower r)
  end.

Definition upper_ascii (c : ascii) : ascii :=
  let n := nat_of_ascii c in
  if (Nat.leb 97 n && Nat.leb n 122)%bool then ascii_of_nat (n - 32) else c.

Fixpoint upper (s : string) : string :=
  match s with
  | EmptyString => EmptyString
  | String c r => String (upper_ascii c) (upper r)
  end.

(** [s.isascii()]: every code point is below 128. *)
Definition isascii (s : string) : bool :=
  forallb (fun c => Nat.ltb (nat_of_ascii c) 128) (list_ascii_of_string s).

(** Whitespace of [str.strip()]: TAB, LF, VT, FF, CR, FS, GS, RS, US, SPACE. *)
Definition isspace (c : ascii) : bool :=
  let n := nat_of_ascii c in
  ((Nat.leb 9 n && Nat.leb n 13) || (Nat.leb 28 n && Nat.leb n 32))%bool.

Fixpoint lstrip (s : string) : string :=
  match s with
  | EmptyString => EmptyString
  | String c r => if isspace c then lstrip r else s
  end.

(** [rstrip] keeps a character when it, or something after it, is not
    whitespace. *)
Fixpoint rstrip (s : string) : string :=
  match s with
  | EmptyString => EmptyString
  | String c r =>
      match rstrip r with
      | EmptyString => if isspace c then EmptyString else String c EmptyString
      | r' => String c r'
      end
  end.

Definition strip (s : string) : string := rstrip (lstrip s).

(** [n in s] on strings: [n] occurs in [s] as a contiguous substring. *)
Fixpoint contains (n s : string) : bool :=
  String.prefix n s ||
  match s with
  | EmptyString => false
  | String _ r => contains n r
  end.

(** [",".join(xs)] *)
Fixpoint join (sep : string) (xs : list string) : string :=
  match xs with
  | [] => EmptyString
  | [x] => x
  | x :: r => x +:+ sep +:+ join sep r
  end.

(** [s.split('.')[-1]]: what follows the last dot, the whole of [s] when it
    has none. *)
Fixpoint after_last_dot (s : string) : string :=
  match s with
  | EmptyString => EmptyString
  | String c r =>
      if contains "." r then after_last_dot r
      else if Ascii.eqb c "."%char then r
      else s
  end.

End Py.

(** ** Attribute values, fields, features *)

(** The attribute values the statements range over: [None], an integer
    or a string. *)
Inductive value :=
| VNone
| VInt (z : Z)
| VStr (s : string).

#[global] Instance value_eq_dec : EqDecision value.
Proof. solve_decision. Defined.

#[global] Instance value_countable : Countable value.
Proof.
  refine (inj_countable'
    (fun v => match v with
              | VNone => inl tt
              | VInt z => inr (inl z)
              | VStr s => inr (inr s)
              end)
    (fun x => match x with
              | inl _ => VNone
              | inr (inl z) => VInt z
              | inr (inr s) => VStr s
              end) _).
  intros []; reflexivity.
Defined.

(** [str(v)] *)
Definition str (v : value) : string :=
  match v with
  | VNone => "None"
  | VInt z => pretty z
  | VStr s => s
  end.

(** Truth value of a Python object in a condition. *)
Definition truthy (v : value) : bool :=
  match v with
  | VNone => false
  | VInt z => negb (Z.eqb z 0)
  | VStr s => negb (String.eqb s "")
  end.

(** The field types the plugin distinguishes, after the Qt compatibility
    block at the end of the file. *)
Inductive QVariantType :=
| QVariantInt
| QVariantLongLong
| QVariantDouble
| QVariantString
| QVariantChar
| QVariantOther.

#[global] Instance QVariantType_eq_dec : EqDecision QVariantType.
Proof. solve_decision. Defined.

(** A field has a name, an alias (empty when none was given) and a type. *)
Record QgsField := mkQgsField {
  name : string;
  alias : string;
  type : QVariantType
}.

(** [QgsField(nome, tipo)]: a field without alias. *)
Definition mkField (nome : string) (tipo : QVariantType) : QgsField :=
  mkQgsField nome "" tipo.

#[global] Instance QgsField_eq_dec : EqDecision QgsField.
Proof. solve_decision. Defined.

(** A feature carries its identifier and one attribute per field of its
    layer, in schema order. *)
Record QgsFeature := mkFeature { fid : Z; attributes : list value }.

#[global] Instance QgsFeature_eq_dec : EqDecision QgsFeature.
Proof. solve_decision. Defined.


(** ** The host: layers, catalogue answers, events *)

(** The catalogue query [obter_chave_primaria] sends.  The query text is an
    f-string over the parts of the data source URI; the constructor records
    which statement it is and the URI parts spliced into it. *)
Inductive consulta :=
| PgIndex (schema table : string)
| MysqlColumns (database table : string)
| MssqlKeyColumnUsage (tabela : string)
| SpatialitePragma (table : string)
| OracleConsColumns (table owner : string).

(** Exceptions the modelled code can meet. *)
Inductive exn :=
| KeyError (chave : string)
| IndexError
| TypeError
| SqlError (msg : string)
| AssertionError
| QgsEditError (erros : string).

(** [str(e)]: a [KeyError] prints its key between quotes, a failed [assert]
    prints nothing, a [QgsEditError] prints the commit errors it carries. *)
Definition str_exn (e : exn) : string :=
  match e with
  | KeyError k => "'" +:+ k +:+ "'"
  | IndexError => "tuple index out of range"
  | TypeError => "argument has unexpected type"
  | SqlError m => m
  | AssertionError => ""
  | QgsEditError erros => erros
  end.

(** A call either returns or raises. *)
Inductive res (A : Type) :=
| Ret (a : A)
| Raise (e : exn).
Arguments Ret {A} a.
Arguments Raise {A} e.

Record QgsDataSourceUri := mkUri {
  uri_schema : string;
  uri_table : string;
  uri_database : string
}.

(** A vector layer, by what the plugin reads from it and asks of it. *)
Record QgsVectorLayer := mkLayer {
  layer_name : string;                        (* name() *)
  isValid : bool;                             (* isValid() *)
  provider_name : string;                     (* dataProvider().name() *)
  source : string;                            (* source() *)
  isTemporary : bool;                         (* isTemporary() *)
  AddAttributes : bool;                       (* capabilities() & AddAttributes *)
  dataSourceUri : QgsDataSourceUri;           (* QgsDataSourceUri(dataSourceUri()) *)
  executeSql : consulta -> res (list (list value)); (* dataProvider().executeSql(sql) *)
  startEditing : bool;                        (* startEditing() *)
  commitChanges : bool;                       (* commitChanges() *)
  commitErrors : string;                      (* repr(commitErrors()) *)
  fields : list QgsField;                     (* fields() *)
  features : list QgsFeature;                 (* getFeatures(), see below *)
  selectedFeatureIds : list Z;                (* selectedFeatureIds() *)
  subsetString : string                       (* subsetString() *)
}.

(** [features] are the records [getFeatures()] iterates while the subset
    filter is empty.  That is how every scan of the plugin meets the layer:
    [executar_filtragem] clears the filter before the first scan and sets the
    new one after the last.  [featureCount()] is their number.  Feature
    identifiers are taken to be distinct, so that [updateFeature] writes the
    record just read. *)
Definition featureCount (camada : QgsVectorLayer) : nat :=
  length (features camada).

(** The edit session opens and commits. *)
Definition edit_ok (camada : QgsVectorLayer) : bool :=
  startEditing camada && commitChanges camada.

(** Every feature has one attribute per field. *)
Definition wf_layer (camada : QgsVectorLayer) : Prop :=
  Forall (fun feat => length (attributes feat) = length (fields camada))
         (features camada).

Inductive Qgis_level := QgisInfo | QgisSuccess | QgisCritical | QgisWarning.

Inductive StandardButton := QMessageBoxYes | QMessageBoxNo.

(** What the plugin does to the outside, in order. *)
Inductive evento :=
| PushMessage (nivel : Qgis_level) (duracao : Z) (mensagem : string)
| LogMessage (nivel : Qgis_level) (mensagem : string)
| MessageBoxWarning (n_selecionados : nat)
| SetSubsetString (s : string)
| EditSession.

(** The state a run threads: the active layer and the trace of events. *)
Record mundo := mkMundo { camada_de : QgsVectorLayer; eventos : list evento }.

(** Stateful calls that may raise. *)
Definition M (A : Type) : Type := mundo -> res A * mundo.

Definition ret {A} (a : A) : M A := fun w => (Ret a, w).
Definition raise {A} (e : exn) : M A := fun w => (Raise e, w).
Definition bind {A B} (m : M A) (k : A -> M B) : M B :=
  fun w => match m w with
           | (Ret a, w') => k a w'
           | (Raise e, w') => (Raise e, w')
           end.
Definition lift {A} (r : res A) : M A := fun w => (r, w).
Definition get_camada : M QgsVectorLayer := fun w => (Ret (camada_de w), w).
Definition put_camada (c : QgsVectorLayer) : M unit :=
  fun w => (Ret tt, mkMundo c (eventos w)).
Definition emit (e : evento) : M unit :=
  fun w => (Ret tt, mkMundo (camada_de w) (eventos w ++ [e])).
(** [try: m  except Exception as e: h e] *)
Definition try_except {A} (m : M A) (h : exn -> M A) : M A :=
  fun w => match m w with
           | (Ret a, w') => (Ret a, w')
           | (Raise e, w') => h e w'
           end.

Definition res_bind {A B} (r : res A) (k : A -> res B) : res B :=
  match r with
  | Ret a => k a
  | Raise e => Raise e
  end.

Declare Scope py_scope.
Delimit Scope py_scope with py.
Notation "'do' x <- m ; k" := (bind m (fun x => k))
  (at level 10, x name, m at level 100, k at level 200) : py_scope.
Notation "m ;; k" := (bind m (fun _ => k))
  (at level 100, k at level 200, right associativity) : py_scope.
Notation "'let?' x := r 'in' k" := (res_bind r (fun x => k))
  (at level 10, x name, r at level 100, k at level 200) : py_scope.
Local Open Scope py_scope.

(** ** Helper functions of the plugin *)

(** [traduzir] is taken on its [else] branch (a locale other than
    Portuguese): texts are recorded by their untranslated key. *)
Definition traduzir (texto : string) : string := texto.

Definition exibir_mensagem (mensagem : string) (erro sucesso : bool) : M unit :=
  let nivel :=
    if erro then QgisCritical else if sucesso then QgisSuccess else QgisInfo in
  let duracao := if erro then 3 else if sucesso then 3 else 4 in
  emit (PushMessage nivel duracao mensagem).

(** The index of the first field that satisfies [p]; [None] stands for
    [-1]. *)
Fixpoint primeiro_indice (p : QgsField -> bool) (campos : list QgsField)
    : option nat :=
  match campos with
  | [] => None
  | campo :: resto =>
      if p campo then Some 0%nat
      else option_map S (primeiro_indice p resto)
  end.

(** [fields().indexFromName(nome)]: the field of exactly that name, case
    included; aliases are not looked at. *)
Definition indexFromName (campos : list QgsField) (nome : string) : option nat :=
  primeiro_indice (fun campo => String.eqb (name campo) nome) campos.

(** [QString::compare(a, b, Qt::CaseInsensitive) == 0] *)
Definition igual_sem_caixa (a b : string) : bool :=
  String.eqb (Py.lower a) (Py.lower b).

(** [fields().lookupField(nome)] tries three matches in turn: the exact
    name; then, for a non-empty [nome], the name without regard to case;
    then the alias, without regard to case. *)
Definition lookupField (campos : list QgsField) (nome : string) : option nat :=
  match indexFromName campos nome with
  | Some indice => Some indice
  | None =>
      if String.eqb nome "" then None
      else
        match primeiro_indice (fun campo => igual_sem_caixa (name campo) nome)
                campos with
        | Some indice => Some indice
        | None =>
            primeiro_indice
              (fun campo => negb (String.eqb (alias campo) "")
                            && igual_sem_caixa (alias campo) nome)
              campos
        end
  end.

(** [feat[indice]] for an index the schema gave. *)
Definition attribute (feat : QgsFeature) (indice : nat) : value :=
  default VNone (attributes feat !! indice).

(** [feat[nome_campo]]: a feature resolves a name as [lookupField] does
    ([QgsFeature.fieldNameIndex]) and gives the attribute at that index;
    [KeyError] for a name that resolves to no field. *)
Definition getitem (camada : QgsVectorLayer) (feat : QgsFeature)
    (nome_campo : string) : res value :=
  match lookupField (fields camada) nome_campo with
  | Some indice => Ret (attribute feat indice)
  | None => Raise (KeyError nome_campo)
  end.

(** The string normalisation inside the loop of [campo_e_unico]. *)
Definition normalizar (valor : value) : value :=
  match valor with
  | VStr s => VStr (Py.lower (Py.strip s))
  | v => v
  end.

(** The loop of [campo_e_unico]: [None] when it returned [False] on a
    repeated value, otherwise the set it accumulated. *)
Fixpoint campo_e_unico_loop (indice : nat) (feats : list QgsFeature)
    (valores : gset value) : option (gset value) :=
  match feats with
  | [] => Some valores
  | feat :: resto =>
      let valor := normalizar (attribute feat indice) in
      if decide (valor ∈ valores) then None
      else campo_e_unico_loop indice resto (valores ∪ {[valor]})
  end.

Definition campo_e_unico (camada : QgsVectorLayer) (nome_campo : string) : bool :=
  match lookupField (fields camada) nome_campo with
  | None => false
  | Some indice =>
      match campo_e_unico_loop indice (features camada) ∅ with
      | None => false
      | Some valores => Nat.eqb (size valores) (featureCount camada)
      end
  end.

(** The loop of [possui_valores_nulos]. *)
Fixpoint possui_valores_nulos_loop (camada : QgsVectorLayer)
    (feats : list QgsFeature) (nome_campo : string) : res bool :=
  match feats with
  | [] => Ret false
  | feat :: resto =>
      let? valor := getitem camada feat nome_campo in
      match valor with
      | VNone => Ret true
      | _ => possui_valores_nulos_loop camada resto nome_campo
      end
  end.

Definition possui_valores_nulos (camada : QgsVectorLayer) (nome_campo : string)
    : res bool :=
  possui_valores_nulos_loop camada (features camada) nome_campo.

Definition camada_editavel (camada : QgsVectorLayer) : bool :=
  AddAttributes camada.

Inductive tipo_camada :=
| Twfs | Tdatabase | Tcsv | Tkml | Tfile | Ttemporary | Tother.

#[global] Instance tipo_camada_eq_dec : EqDecision tipo_camada.
Proof. solve_decision. Defined.

Definition str_in_list (s : string) (l : list string) : bool :=
  existsb (String.eqb s) l.

(** [tipo in ('wfs', 'csv')] *)
Definition wfs_ou_csv (t : tipo_camada) : bool :=
  match t with
  | Twfs | Tcsv => true
  | _ => false
  end.

Definition identificar_tipo_camada (camada : QgsVectorLayer) : tipo_camada :=
  let provedor := Py.lower (provider_name camada) in
  let uri := Py.lower (source camada) in
  if Py.contains "wfs" uri || String.eqb provedor "wfs" then Twfs
  else if str_in_list provedor
            ["postgres"; "postgresql"; "oracle"; "mssql"; "mysql"; "spatialite"]
       then Tdatabase
  else if String.eqb provedor "delimitedtext" || Py.contains ".csv" uri then Tcsv
  else if Py.contains "libkml" provedor
          || existsb (fun ext => Py.contains ext uri) [".kml"; ".kmz"] then Tkml
  else if String.eqb provedor "ogr"
          && existsb (fun ext => Py.contains ext uri) [".shp"; ".gpkg"] then Tfile
  else if isTemporary camada then Ttemporary
  else Tother.

(** ** Primary keys of database layers *)

(** The [if]/[elif] chain choosing the statement; [None] is its [else]
    branch, which returns before any query. *)
Definition montar_consulta (camada : QgsVectorLayer) : option consulta :=
  let uri := dataSourceUri camada in
  let provedor := Py.lower (provider_name camada) in
  if str_in_list provedor ["postgres"; "postgresql"] then
    Some (PgIndex (uri_schema uri) (uri_table uri))
  else if String.eqb provedor "mysql" then
    Some (MysqlColumns (uri_database uri) (uri_table uri))
  else if String.eqb provedor "mssql" then
    let tabela :=
      if Py.contains "." (uri_table uri) then Py.after_last_dot (uri_table uri)
      else uri_table uri in
    Some (MssqlKeyColumnUsage tabela)
  else if String.eqb provedor "spatialite" then
    Some (SpatialitePragma (uri_table uri))
  else if String.eqb provedor "oracle" then
    Some (OracleConsColumns (Py.upper (uri_table uri)) (Py.upper (uri_schema uri)))
  else None.

(** [l[i]] on a tuple or list. *)
Definition index {A} (l : list A) (i : nat) : res A :=
  match l !! i with
  | Some x => Ret x
  | None => Raise IndexError
  end.

(** [for coluna in resultado: if coluna[5] == 1: return coluna[1]] *)
Fixpoint spatialite_pk (resultado : list (list value)) : res value :=
  match resultado with
  | [] => Ret VNone
  | coluna :: resto =>
      let? pk := index coluna 5 in
      if decide (pk = VInt 1) then index coluna 1
      else spatialite_pk resto
  end.

(** The body of the [try] block; [VNone] is Python's [None]. *)
Definition obter_chave_primaria_try (camada : QgsVectorLayer) : res value :=
  let provedor := Py.lower (provider_name camada) in
  match montar_consulta camada with
  | None => Ret VNone
  | Some sql =>
      let? resultado := executeSql camada sql in
      if String.eqb provedor "spatialite" then spatialite_pk resultado
      else match resultado with
           | [] => Ret VNone
           | _ => let? linha := index resultado 0 in index linha 0
           end
  end.

Definition obter_chave_primaria : M value :=
  do camada <- get_camada;
  try_except (lift (obter_chave_primaria_try camada))
    (fun e =>
       emit (LogMessage QgisWarning ("Erro ao obter PK: " +:+ str_exn e)) ;;
       ret VNone).

(** ** The auxiliary sequential field *)

Definition with_fields_features (camada : QgsVectorLayer)
    (campos : list QgsField) (feats : list QgsFeature) : QgsVectorLayer :=
  mkLayer (layer_name camada) (isValid camada) (provider_name camada)
    (source camada) (isTemporary camada) (AddAttributes camada)
    (dataSourceUri camada) (executeSql camada) (startEditing camada)
    (commitChanges camada) (commitErrors camada)
    campos feats (selectedFeatureIds camada) (subsetString camada).

Definition with_subsetString (camada : QgsVectorLayer) (s : string)
    : QgsVectorLayer :=
  mkLayer (layer_name camada) (isValid camada) (provider_name camada)
    (source camada) (isTemporary camada) (AddAttributes camada)
    (dataSourceUri camada) (executeSql camada) (startEditing camada)
    (commitChanges camada) (commitErrors camada)
    (fields camada) (features camada) (selectedFeatureIds camada) s.

(** [dataProvider().addAttributes([campo]); updateFields()]: the provider
    appends the field to the schema at once, outside the edit buffer; it is
    null on every record. *)
Definition addAttributes (camada : QgsVectorLayer) (campo : QgsField)
    : QgsVectorLayer :=
  with_fields_features camada (fields camada ++ [campo])
    (map (fun feat => mkFeature (fid feat) (attributes feat ++ [VNone]))
         (features camada)).

(** [feat[nome_campo] = valor], the name resolved as in [getitem]. *)
Definition setitem (camada : QgsVectorLayer) (feat : QgsFeature)
    (nome_campo : string) (valor : value) : res QgsFeature :=
  match lookupField (fields camada) nome_campo with
  | Some indice => Ret (mkFeature (fid feat) (<[indice := valor]> (attributes feat)))
  | None => Raise (KeyError nome_campo)
  end.

(** [for i, feat in enumerate(getFeatures()): feat[nome_campo] = i + 1;
    updateFeature(feat)], entered with the count [i] of records done. *)
Fixpoint numerar (camada : QgsVectorLayer) (nome_campo : string) (i : Z)
    (feats : list QgsFeature) : res (list QgsFeature) :=
  match feats with
  | [] => Ret []
  | feat :: resto =>
      let? feat' := setitem camada feat nome_campo (VInt (i + 1)) in
      let? resto' := numerar camada nome_campo (i + 1) resto in
      Ret (feat' :: resto')
  end.

(** [rollBack()]: the buffered changes are dropped.  The records are
    those of [antes], the layer when the session began; the fields are those
    of [depois], since what the provider added meanwhile stays, and is null
    on every record. *)
Definition rollBack (antes depois : QgsVectorLayer) : QgsVectorLayer :=
  with_fields_features depois (fields depois)
    (map (fun feat =>
            mkFeature (fid feat)
              (attributes feat
                 ++ replicate (length (fields depois) - length (fields antes))
                      VNone))
         (features antes)).

(** [with edit(camada): corpo].  Entering asserts [startEditing()].  When
    the body raises, the session is rolled back and the exception goes on.
    When the body ends, [commitChanges()] is called; if that fails a
    [QgsEditError] with the commit errors is raised and nothing is rolled
    back: the layer goes on showing what the body left, the changes of the
    records pending in its edit buffer. *)
Definition edit {A} (corpo : M A) : M A :=
  fun w =>
    if startEditing (camada_de w) then
      match corpo (mkMundo (camada_de w) (eventos w ++ [EditSession])) with
      | (Ret a, w') =>
          if commitChanges (camada_de w') then (Ret a, w')
          else (Raise (QgsEditError (commitErrors (camada_de w'))), w')
      | (Raise e, w') =>
          (Raise e, mkMundo (rollBack (camada_de w) (camada_de w')) (eventos w'))
      end
    else (Raise AssertionError, w).

Definition names (campos : list QgsField) : list string := map name campos.

Definition gerenciar_campo_auxiliar : M (option string) :=
  do camada <- get_camada;
  if wfs_ou_csv (identificar_tipo_camada camada) || negb (camada_editavel camada)
  then ret None
  else
    let nome_campo := "id_row_nr" in
    try_except
      (edit
         ((if negb (str_in_list nome_campo (names (fields camada)))
           then put_camada (addAttributes camada (mkField nome_campo QVariantInt))
           else ret tt) ;;
          do camada <- get_camada;
          do feats <- lift (numerar camada nome_campo 0 (features camada));
          put_camada (with_fields_features camada (fields camada) feats)) ;;
       ret (Some nome_campo))
      (fun e =>
         exibir_mensagem
           (traduzir "Failed to create auxiliary field: " +:+ str_exn e)
           true false ;;
         ret None).

(** ** Field selection *)

(** [campo_e_unico(camada, n) and not possui_valores_nulos(camada, n)] *)
Definition unico_sem_nulos (camada : QgsVectorLayer) (nome_campo : string)
    : res bool :=
  if campo_e_unico camada nome_campo then
    let? nulos := possui_valores_nulos camada nome_campo in
    Ret (negb nulos)
  else Ret false.

(** [pk and campo_e_unico(camada, pk) and not possui_valores_nulos(camada, pk)];
    [lookupField] takes a string and nothing else. *)
Definition pk_serve (camada : QgsVectorLayer) (pk : value) : res bool :=
  if truthy pk then
    match pk with
    | VStr nome_campo => unico_sem_nulos camada nome_campo
    | _ => Raise TypeError
    end
  else Ret false.

(** [for campo in camada.fields(): if unique and no nulls: return name] *)
Fixpoint primeiro_unico (camada : QgsVectorLayer) (campos : list QgsField)
    : res (option string) :=
  match campos with
  | [] => Ret None
  | campo :: resto =>
      let nome_campo := name campo in
      let? serve := unico_sem_nulos camada nome_campo in
      if serve then Ret (Some nome_campo)
      else primeiro_unico camada resto
  end.

Record grupo := mkGrupo { nomes : list string; tipos : list QVariantType }.

Definition grupo1 := mkGrupo ["fid"; "id"; "objectid"] [QVariantInt; QVariantLongLong].
Definition grupo2 := mkGrupo ["id"; "cod"; "co"] [QVariantInt].
Definition grupo3 := mkGrupo ["id"; "cod"; "co"; "nome"; "no"] [QVariantString].
Definition grupo4 := mkGrupo [] [QVariantInt].
Definition grupo5 := mkGrupo [] [QVariantString].

Definition prioridades : list grupo := [grupo1; grupo2; grupo3; grupo4; grupo5].

Definition tipo_valido (g : grupo) (campo : QgsField) : bool :=
  bool_decide (type campo ∈ tipos g).

Definition nome_valido (g : grupo) (campo : QgsField) : bool :=
  let nome_campo := Py.lower (name campo) in
  match nomes g with
  | [] => true
  | _ => existsb (fun n => Py.contains n nome_campo) (nomes g)
  end.

(** The inner loop: the fields of one group, in schema order. *)
Fixpoint varrer_campos (camada : QgsVectorLayer) (g : grupo)
    (campos : list QgsField) : res (option string) :=
  match campos with
  | [] => Ret None
  | campo :: resto =>
      if nome_valido g campo && tipo_valido g campo then
        let? serve := unico_sem_nulos camada (name campo) in
        if serve then Ret (Some (name campo))
        else varrer_campos camada g resto
      else varrer_campos camada g resto
  end.

(** The outer loop: the groups in order, each over all the fields. *)
Fixpoint varrer_prioridades (camada : QgsVectorLayer) (grupos : list grupo)
    : res (option string) :=
  match grupos with
  | [] => Ret None
  | g :: resto =>
      let? achado := varrer_campos camada g (fields camada) in
      match achado with
      | Some nome_campo => Ret (Some nome_campo)
      | None => varrer_prioridades camada resto
      end
  end.

(** [tipo_camada in ('kml', 'file', 'temporary')] *)
Definition kml_file_temporary (t : tipo_camada) : bool :=
  match t with
  | Tkml | Tfile | Ttemporary => true
  | _ => false
  end.

Definition identificar_campo_filtro : M (option string) :=
  do camada <- get_camada;
  let tipo := identificar_tipo_camada camada in
  if bool_decide (tipo = Tdatabase) then
    do pk <- obter_chave_primaria;
    do serve <- lift (pk_serve camada pk);
    if serve then ret (Some (str pk))
    else lift (primeiro_unico camada (fields camada))
  else if wfs_ou_csv tipo || negb (camada_editavel camada) then
    lift (primeiro_unico camada (fields camada))
  else if kml_file_temporary tipo then
    do achado <- lift (varrer_prioridades camada prioridades);
    match achado with
    | Some nome_campo => ret (Some nome_campo)
    | None => gerenciar_campo_auxiliar
    end
  else ret None.

(** ** The filter *)

(** [camada.setSubsetString(s)] *)
Definition setSubsetString (s : string) : M unit :=
  do camada <- get_camada;
  put_camada (with_subsetString camada s) ;;
  emit (SetSubsetString s).

(** [getFeatures(QgsFeatureRequest().setFilterFids(ids))]: the selected
    records, in the layer's iteration order. *)
Definition getFeatures_fids (camada : QgsVectorLayer) (ids : list Z)
    : list QgsFeature :=
  filter (fun feat => fid feat ∈ ids) (features camada).

(** [[str(feat[campo]) for feat in feats]] *)
Fixpoint coletar_valores (camada : QgsVectorLayer) (campo : string)
    (feats : list QgsFeature) : res (list string) :=
  match feats with
  | [] => Ret []
  | feat :: resto =>
      let? valor := getitem camada feat campo in
      let? valores := coletar_valores camada campo resto in
      Ret (str valor :: valores)
  end.

(** [camada.fields().field(campo)]: the field of exactly that name
    ([indexFromName]), [KeyError] when there is none. *)
Definition field (camada : QgsVectorLayer) (campo : string) : res QgsField :=
  match indexFromName (fields camada) campo with
  | Some indice => index (fields camada) indice
  | None => Raise (KeyError campo)
  end.

(** The double quote character. *)
Definition aspas : ascii := "034"%char.

Definition quote (v : string) : string := "'" +:+ v +:+ "'".

Definition valores_formatados (tipo_campo : QVariantType)
    (valores : list string) : string :=
  if bool_decide (tipo_campo ∈ [QVariantString; QVariantChar])
  then Py.join "," (map quote valores)
  else Py.join "," valores.

(** [f'"{campo}" IN ({valores_formatados})'] *)
Definition expressao (campo : string) (tipo_campo : QVariantType)
    (valores : list string) : string :=
  String aspas campo +:+ String aspas " IN ("
    +:+ valores_formatados tipo_campo valores +:+ ")".

(** [not campo] on what [identificar_campo_filtro] returned. *)
Definition sem_campo (campo : option string) : bool :=
  match campo with
  | None => true
  | Some nome => String.eqb nome ""
  end.

Definition nl : string := String "010"%char "".

(** The [try] block of [executar_filtragem]. *)
Definition filtrar_try (selected_ids : list Z) : M unit :=
  setSubsetString "" ;;
  do campo <- identificar_campo_filtro;
  if sem_campo campo then
    exibir_mensagem (traduzir "No field with unique values found") true false
  else
    let campo := default "" campo in
    do camada <- get_camada;
    do valores <- lift (coletar_valores camada campo
                          (getFeatures_fids camada selected_ids));
    do campo_obj <- lift (field camada campo);
    let tipo_campo := type campo_obj in
    setSubsetString (expressao campo tipo_campo valores) ;;
    let mensagem :=
      traduzir "Layer: " +:+ layer_name camada +:+ " - " +:+ nl +:+
      traduzir "Filtered features: " +:+ pretty (length valores) +:+ " - " +:+ nl +:+
      traduzir "Field used: " +:+ campo in
    exibir_mensagem mensagem false true.

(** What [iface.activeLayer()] gives and what the user answers to the
    warning box. *)
Inductive QgsMapLayer :=
| OtherLayer
| VectorLayer (camada : QgsVectorLayer).

Record QgisInterface := mkIface {
  activeLayer : option QgsMapLayer;
  resposta : StandardButton
}.

(** The [try] block with its [except Exception] clause. *)
Definition filtrar_protegido (selected_ids : list Z) : M unit :=
  try_except (filtrar_try selected_ids)
    (fun e =>
       exibir_mensagem
         (traduzir ("Error during filtering: " +:+ str_exn e)) true false ;;
       emit (LogMessage QgisCritical ("Erro detalhado: " +:+ str_exn e))).

(** The part of [executar_filtragem] that runs on a valid vector layer. *)
Definition filtrar (resposta : StandardButton) : M unit :=
  do camada <- get_camada;
  let selected_ids := selectedFeatureIds camada in
  match selected_ids with
  | [] => exibir_mensagem (traduzir "No features selected") true false
  | _ =>
      let tipo_camada := identificar_tipo_camada camada in
      if bool_decide (tipo_camada = Twfs) && Nat.ltb 20 (length selected_ids) then
        emit (MessageBoxWarning (length selected_ids)) ;;
        match resposta with
        | QMessageBoxNo =>
            exibir_mensagem (traduzir "Filter cancelled by user") false false
        | QMessageBoxYes => filtrar_protegido selected_ids
        end
      else filtrar_protegido selected_ids
  end.

(** [executar_filtragem(iface)]: the layer as the run leaves it (when there
    is one) and the events of the run. *)
Definition executar_filtragem (iface : QgisInterface)
    : option QgsVectorLayer * list evento :=
  match activeLayer iface with
  | Some (VectorLayer camada) =>
      if isValid camada then
        let w := snd (filtrar (resposta iface) (mkMundo camada [])) in
        (Some (camada_de w), eventos w)
      else
        (Some camada,
         [PushMessage QgisCritical 3 (traduzir "Select a valid vector layer")])
  | _ => (None, [PushMessage QgisCritical 3 (traduzir "Select a valid vector layer")])
  end.

(** ** The uniqueness oracle as the specification words it *)

(** The value a record holds for a field name, resolved as [feat[nome]]
    resolves it; the null marker when the name resolves to no field. *)
Definition projetar (camada : QgsVectorLayer) (nome_campo : string)
    (feat : QgsFeature) : value :=
  match lookupField (fields camada) nome_campo with
  | Some indice => attribute feat indice
  | None => VNone
  end.

(** The normalised values of a field, record by record. *)
Definition valores_normalizados (camada : QgsVectorLayer) (nome_campo : string)
    : list value :=
  map (fun feat => normalizar (projetar camada nome_campo feat)) (features camada).

(** A record-by-record scan finds no two equal normalised values. *)
Definition sem_valores_repetidos (camada : QgsVectorLayer) (nome_campo : string)
    : Prop :=
  NoDup (valores_normalizados camada nome_campo).

(** The set of normalised values has as many elements as there are records. *)
Definition cardinalidade_completa (camada : QgsVectorLayer) (nome_campo : string)
    : Prop :=
  size (list_to_set (valores_normalizados camada nome_campo) : gset value)
  = featureCount camada.

(** How many records are null in the field. *)
Definition conta_nulos (camada : QgsVectorLayer) (nome_campo : string) : nat :=
  length (filter (fun v => v = VNone) (valores_normalizados camada nome_campo)).

(** ** Notions the statements use *)

(** Some record is null in the field. *)
Definition tem_nulo (camada : QgsVectorLayer) (nome_campo : string) : bool :=
  existsb (fun feat => bool_decide (projetar camada nome_campo feat = VNone))
          (features camada).

(** The field passes both oracles: unique and free of nulls. *)
Definition qualifica (camada : QgsVectorLayer) (nome_campo : string) : bool :=
  campo_e_unico camada nome_campo && negb (tem_nulo camada nome_campo).

(** The field qualifies at the tier of group [g]: name and type match the
    group and the field passes both oracles. *)
Definition qualifica_em (camada : QgsVectorLayer) (g : grupo) (campo : QgsField)
    : bool :=
  nome_valido g campo && tipo_valido g campo && qualifica camada (name campo).

(** The first field, in schema order, that satisfies [p]. *)
Definition primeiro (p : QgsField -> bool) (campos : list QgsField)
    : option string :=
  option_map name (List.find p campos).

(** [n] occurs in [s]: [s] is some prefix, then [n], then some suffix. *)
Definition substring_of (n s : string) : Prop :=
  exists pre suf, s = pre +:+ n +:+ suf.

(** The groups in order: the answer of the first group that finds a field. *)
Fixpoint primeiro_grupo (camada : QgsVectorLayer) (grupos : list grupo)
    : option string :=
  match grupos with
  | [] => None
  | g :: resto =>
      match primeiro (qualifica_em camada g) (fields camada) with
      | Some nome_campo => Some nome_campo
      | None => primeiro_grupo camada resto
      end
  end.

(** The records with attribute [indice] renumbered, counting from [i + 1]. *)
Fixpoint renumerar (indice : nat) (i : Z) (feats : list QgsFeature)
    : list QgsFeature :=
  match feats with
  | [] => []
  | feat :: resto =>
      mkFeature (fid feat) (<[indice := VInt (i + 1)]> (attributes feat))
      :: renumerar indice (i + 1) resto
  end.

Definition id_row_nr : string := "id_row_nr".

(** The layer once it surely has a field [id_row_nr]. *)
Definition com_campo_auxiliar (camada : QgsVectorLayer) : QgsVectorLayer :=
  if str_in_list id_row_nr (names (fields camada)) then camada
  else addAttributes camada (mkField id_row_nr QVariantInt).

(** The layer as a successful run of [gerenciar_campo_auxiliar] leaves it. *)
Definition campo_auxiliar_numerado (camada : QgsVectorLayer) : QgsVectorLayer :=
  let camada1 := com_campo_auxiliar camada in
  match lookupField (fields camada1) id_row_nr with
  | Some indice =>
      with_fields_features camada1 (fields camada1)
        (renumerar indice 0 (features camada1))
  | None => camada1
  end.

(** The values of attribute [indice], record by record. *)
Definition coluna (indice : nat) (feats : list QgsFeature) : list value :=
  map (fun feat => attribute feat indice) feats.

(** The guard of [gerenciar_campo_auxiliar] lets the layer through. *)
Definition aceita_campo_auxiliar (camada : QgsVectorLayer) : bool :=
  negb (wfs_ou_csv (identificar_tipo_camada camada)) && camada_editavel camada.

(** The test on the resolved key, case by case. *)
Definition pk_serve_puro (camada : QgsVectorLayer) (pk : value) : res bool :=
  match pk with
  | VNone => Ret false
  | VInt z => if Z.eqb z 0 then Ret false else Raise TypeError
  | VStr nome_campo =>
      Ret (negb (String.eqb nome_campo "") && qualifica camada nome_campo)
  end.

(** ** Sample layers *)

(** A catalogue that refuses every query. *)
Definition sem_catalogo (sql : consulta) : res (list (list value)) :=
  Raise (SqlError "permission denied").

(** A valid, editable layer that accepts edit sessions. *)
Definition camada_exemplo (provedor fonte : string) (campos : list QgsField)
    (feats : list QgsFeature) (selecionados : list Z) : QgsVectorLayer :=
  mkLayer "exemplo" true provedor fonte false true (mkUri "public" "t" "db")
    sem_catalogo true true "" campos feats selecionados "".

(** A shapefile with a unique integer [fid] and a name column. *)
Definition camada_fid : QgsVectorLayer :=
  camada_exemplo "ogr" "/dados/lotes.shp"
    [mkField "fid" QVariantInt; mkField "nome" QVariantString]
    [mkFeature 1 [VInt 1; VStr "a"]; mkFeature 2 [VInt 2; VStr "b"];
     mkFeature 3 [VInt 3; VStr "b"]]
    [1; 3].

(** A layer without fields or records. *)
Definition camada_vazia : QgsVectorLayer :=
  camada_exemplo "ogr" "/dados/vazia.shp" [] [] [].

(** A PostGIS table whose catalogue names [gid] as primary key. *)
Definition camada_pg : QgsVectorLayer :=
  mkLayer "lotes" true "postgres" "dbname='cadastro' table=lotes" false true
    (mkUri "public" "lotes" "cadastro") (fun _ => Ret [[VStr "gid"]])
    true true ""
    [mkField "nome" QVariantString; mkField "gid" QVariantInt]
    [mkFeature 1 [VStr "a"; VInt 5]; mkFeature 2 [VStr "b"; VInt 6]]
    [2] "".

(** The same table when the catalogue refuses the query. *)
Definition camada_pg_negada : QgsVectorLayer :=
  mkLayer "lotes" true "postgres" "dbname='cadastro' table=lotes" false true
    (mkUri "public" "lotes" "cadastro") sem_catalogo true true ""
    [mkField "nome" QVariantString; mkField "gid" QVariantInt]
    [mkFeature 1 [VStr "a"; VInt 5]; mkFeature 2 [VStr "b"; VInt 6]]
    [2] "".

(** A shapefile whose first field only contains the keyword [id]. *)
Definition camada_idade : QgsVectorLayer :=
  camada_exemplo "ogr" "/dados/pessoas.shp"
    [mkField "idade" QVariantInt; mkField "id" QVariantInt]
    [mkFeature 1 [VInt 30; VInt 7]; mkFeature 2 [VInt 10; VInt 8];
     mkFeature 3 [VInt 20; VInt 9]]
    [1; 2; 3].

(** The same table when the catalogue spells the key in capitals. *)
Definition camada_pg_caixa : QgsVectorLayer :=
  mkLayer "lotes" true "postgres" "dbname='cadastro' table=lotes" false true
    (mkUri "public" "lotes" "cadastro") (fun _ => Ret [[VStr "GID"]])
    true true ""
    [mkField "nome" QVariantString; mkField "gid" QVariantInt]
    [mkFeature 1 [VStr "a"; VInt 5]; mkFeature 2 [VStr "b"; VInt 6]]
    [2] "".


(** The scan of the schema in its order, for a field passing both oracles. *)
Definition primeiro_qualificado (camada : QgsVectorLayer) : option string :=
  primeiro (fun campo => qualifica camada (name campo)) (fields camada).

(** The database branch, case by case on what the resolver returned. *)
Definition ramo_database (camada : QgsVectorLayer) (pk : value)
    : res (option string) :=
  match pk with
  | VNone => Ret (primeiro_qualificado camada)
  | VInt z =>
      if Z.eqb z 0 then Ret (primeiro_qualificado camada) else Raise TypeError
  | VStr nome_campo =>
      if negb (String.eqb nome_campo "") && qualifica camada nome_campo
      then Ret (Some nome_campo)
      else Ret (primeiro_qualificado camada)
  end.

(** The record the resolver writes to the message log on a failure. *)
Definition log_erro_pk (e : exn) : evento :=
  LogMessage QgisWarning ("Erro ao obter PK: " +:+ str_exn e).

(** The name test of the first group, as the specification has it: the
    lower-cased name is exactly one of the three. *)
Definition nome_exato_grupo1 (campo : QgsField) : Prop :=
  Py.lower (name campo) ∈ ["fid"; "id"; "objectid"].

(** A shapefile whose first field qualifies only as "any integer field" and
    whose second field carries the keyword [cod]. *)
Definition camada_area_cod : QgsVectorLayer :=
  camada_exemplo "ogr" "/dados/quadras.shp"
    [mkField "area" QVariantInt; mkField "cod" QVariantInt]
    [mkFeature 1 [VInt 500; VInt 30]; mkFeature 2 [VInt 350; VInt 10];
     mkFeature 3 [VInt 420; VInt 20]]
    [1; 2; 3].

(** The same shapefile with a long-integer [objectid] as third field. *)
Definition camada_area_cod_objectid : QgsVectorLayer :=
  camada_exemplo "ogr" "/dados/quadras.shp"
    [mkField "area" QVariantInt; mkField "cod" QVariantInt;
     mkField "objectid" QVariantLongLong]
    [mkFeature 1 [VInt 500; VInt 30; VInt 7];
     mkFeature 2 [VInt 350; VInt 10; VInt 8];
     mkFeature 3 [VInt 420; VInt 20; VInt 9]]
    [1; 2; 3].

(** A GeoPackage that already has a text field [id_row_nr], with a repeated
    value and a null. *)
Definition camada_aux_texto : QgsVectorLayer :=
  camada_exemplo "ogr" "/dados/trechos.gpkg"
    [mkField "id_row_nr" QVariantString; mkField "geom" QVariantOther]
    [mkFeature 1 [VStr "a"; VNone]; mkFeature 2 [VStr "a"; VNone];
     mkFeature 3 [VNone; VNone]]
    [2; 3].

(** The same GeoPackage without that field. *)
Definition camada_sem_aux : QgsVectorLayer :=
  camada_exemplo "ogr" "/dados/trechos.gpkg"
    [mkField "geom" QVariantOther]
    [mkFeature 1 [VNone]; mkFeature 2 [VNone]; mkFeature 3 [VNone]]
    [2; 3].

(** The message of the [except] clause of [gerenciar_campo_auxiliar]. *)
Definition msg_falha_auxiliar (erro : string) : evento :=
  PushMessage QgisCritical 3 ("Failed to create auxiliary field: " +:+ erro).

(** The schema a successful run of [gerenciar_campo_auxiliar] leaves. *)
Definition campos_com_auxiliar (camada : QgsVectorLayer) : list QgsField :=
  if decide (id_row_nr ∈ names (fields camada)) then fields camada
  else fields camada ++ [mkField id_row_nr QVariantInt].

(** ** Traces and filters *)

(** A call only ever adds events to the trace. *)
Definition estende {A} (m : M A) : Prop :=
  forall w r w', m w = (r, w') -> exists evs, eventos w' = eventos w ++ evs.

(** The state right after [setSubsetString('')]. *)
Definition filtro_limpo (w : mundo) : mundo :=
  mkMundo (with_subsetString (camada_de w) "")
          (eventos w ++ [SetSubsetString ""]).

Definition msg_sem_campo : evento :=
  PushMessage QgisCritical 3 "No field with unique values found".

Definition msg_cancelado : evento :=
  PushMessage QgisInfo 4 "Filter cancelled by user".

(** The values of the selected records for a field, in iteration order, as
    [str] prints them. *)
Definition valores_selecionados (camada : QgsVectorLayer) (campo : string)
    (ids : list Z) : list string :=
  map (fun feat => str (projetar camada campo feat)) (getFeatures_fids camada ids).

(** The message of a successful run. *)
Definition msg_sucesso (camada : QgsVectorLayer) (campo : string) (n : nat)
    : evento :=
  PushMessage QgisSuccess 3
    ("Layer: " +:+ layer_name camada +:+ " - " +:+ nl +:+
     "Filtered features: " +:+ pretty n +:+ " - " +:+ nl +:+
     "Field used: " +:+ campo).

(** A filter on the field [cod] listing [lista]. *)
Definition filtro_cod (lista : string) : string :=
  String aspas "cod" +:+ String aspas " IN (" +:+ lista +:+ ")".

(** A remote layer with 21 records, all selected. *)
Definition camada_wfs : QgsVectorLayer :=
  mkLayer "rios" true "WFS" "https://geo.example/wfs?typename=rios" false false
    (mkUri "" "" "") sem_catalogo false false ""
    [mkField "gml_id" QVariantString]
    (map (fun i => mkFeature i [VStr (pretty i)]) (seqZ 1 21))
    (seqZ 1 21) "gml_id = '3'".

(** A read-only layer whose only field repeats a value, with a filter left
    by an earlier run. *)
Definition camada_sem_unico : QgsVectorLayer :=
  mkLayer "bairros" true "ogr" "/dados/bairros.tab" false false
    (mkUri "" "" "") sem_catalogo false false ""
    [mkField "zona" QVariantInt]
    [mkFeature 1 [VInt 4]; mkFeature 2 [VInt 4]; mkFeature 3 [VInt 9]]
    [1] "zona IN (4)".

(** The events before the [try] block of a run that reaches it: the
    warning box on a [wfs] layer with more than 20 selected records, nothing
    otherwise. *)
Definition aviso (camada : QgsVectorLayer) : list evento :=
  if bool_decide (identificar_tipo_camada camada = Twfs)
     && Nat.ltb 20 (length (selectedFeatureIds camada))
  then [MessageBoxWarning (length (selectedFeatureIds camada))]
  else [].

(** ** More sample layers and notions *)

(** A GeoJSON file opened through OGR: editable, and of no class the
    plugin knows. *)
Definition camada_geojson : QgsVectorLayer :=
  mkLayer "pontos" true "ogr" "/dados/pontos.geojson" false true
    (mkUri "" "" "") sem_catalogo true true ""
    [mkField "id" QVariantInt]
    [mkFeature 1 [VInt 1]; mkFeature 2 [VInt 2]]
    [2] "id = 1".

(** A PostGIS table whose catalogue answers with a number where a column
    name is expected. *)
Definition camada_pg_numero : QgsVectorLayer :=
  mkLayer "lotes" true "postgres" "dbname='cadastro' table=lotes" false true
    (mkUri "public" "lotes" "cadastro") (fun _ => Ret [[VInt 3]])
    true true ""
    [mkField "nome" QVariantString; mkField "gid" QVariantInt]
    [mkFeature 1 [VStr "a"; VInt 5]; mkFeature 2 [VStr "b"; VInt 6]]
    [2] "gid = 5".

(** A shapefile whose only field is a text field, one value holding a
    single quote. *)
Definition camada_nomes : QgsVectorLayer :=
  camada_exemplo "ogr" "/dados/ruas.shp"
    [mkField "nome" QVariantString]
    [mkFeature 1 [VStr "A"]; mkFeature 2 [VStr "B's"]; mkFeature 3 [VStr "C"]]
    [1; 2].

(** The two messages of the [except] clause of [executar_filtragem]. *)
Definition msgs_erro (e : exn) : list evento :=
  [PushMessage QgisCritical 3 ("Error during filtering: " +:+ str_exn e);
   LogMessage QgisCritical ("Erro detalhado: " +:+ str_exn e)].

Definition msg_camada_invalida : evento :=
  PushMessage QgisCritical 3 "Select a valid vector layer".

Definition msg_sem_selecao : evento :=
  PushMessage QgisCritical 3 "No features selected".

(** The run reaches the [try] block: a valid vector layer is active, some
    record is selected and, when the warning box is shown, the user says
    Yes. *)
Definition chega_ao_try (iface : QgisInterface) (camada : QgsVectorLayer)
    : Prop :=
  activeLayer iface = Some (VectorLayer camada)
  /\ isValid camada = true
  /\ selectedFeatureIds camada <> []
  /\ (aviso camada <> [] -> resposta iface = QMessageBoxYes).

(** The 1-based positions, counted from [i + 1], of the records whose
    identifier is in [ids]. *)
Fixpoint posicoes_selecionadas (ids : list Z) (i : Z) (feats : list QgsFeature)
    : list Z :=
  match feats with
  | [] => []
  | feat :: resto =>
      if decide (fid feat ∈ ids)
      then (i + 1) :: posicoes_selecionadas ids (i + 1) resto
      else posicoes_selecionadas ids (i + 1) resto
  end.

(** A GeoPackage with only a geometry column; the second and fourth
    records are selected. *)
Definition camada_so_geom : QgsVectorLayer :=
  camada_exemplo "ogr" "/dados/pocos.gpkg"
    [mkField "geom" QVariantOther]
    [mkFeature 10 [VNone]; mkFeature 20 [VNone]; mkFeature 30 [VNone];
     mkFeature 40 [VNone]]
    [40; 20].

(** A GeoPackage with only a geometry column on which the session opens
    and the commit is refused. *)
Definition camada_commit_falha : QgsVectorLayer :=
  mkLayer "pocos" true "ogr" "/dados/pocos.gpkg" false true
    (mkUri "" "" "") sem_catalogo true false "['disk full']"
    [mkField "geom" QVariantOther]
    [mkFeature 10 [VNone]; mkFeature 20 [VNone]]
    [20] "".

(** The provider names [identificar_tipo_camada] takes for databases. *)
Definition provedores_database : list string :=
  ["postgres"; "postgresql"; "oracle"; "mssql"; "mysql"; "spatialite"].

(** The layer under another provider name and source. *)
Definition com_provedor_fonte (camada : QgsVectorLayer) (provedor fonte : string)
    : QgsVectorLayer :=
  mkLayer (layer_name camada) (isValid camada) provedor fonte
    (isTemporary camada) (AddAttributes camada) (dataSourceUri camada)
    (executeSql camada) (startEditing camada) (commitChanges camada)
    (commitErrors camada) (fields camada) (features camada)
    (selectedFeatureIds camada) (subsetString camada).

(** A row of [PRAGMA table_info] that is long enough and not flagged as
    primary key. *)
Definition linha_sem_pk (linha : list value) : Prop :=
  exists v, linha !! 5%nat = Some v /\ v <> VInt 1.

(** A SpatiaLite table whose second column is the primary key. *)
Definition camada_spatialite : QgsVectorLayer :=
  mkLayer "postes" true "spatialite" "dbname='/dados/rede.sqlite' table=postes"
    false true (mkUri "" "postes" "/dados/rede.sqlite")
    (fun _ => Ret [[VInt 0; VStr "geom"; VStr "POINT"; VInt 0; VNone; VInt 0];
                   [VInt 1; VStr "pk_uid"; VStr "INTEGER"; VInt 1; VNone; VInt 1]])
    true true ""
    [mkField "pk_uid" QVariantInt]
    [mkFeature 1 [VInt 1]; mkFeature 2 [VInt 2]]
    [1] "".

(** A SQL Server table named with its schema. *)
Definition camada_mssql : QgsVectorLayer :=
  mkLayer "vias" true "mssql" "dbname='obras' table=dbo.vias" false true
    (mkUri "dbo" "dbo.vias" "obras") (fun _ => Ret []) true true ""
    [mkField "nome" QVariantString]
    [mkFeature 1 [VStr "Rua A"]; mkFeature 2 [VStr "rua a "]]
    [1] "".

(** ** Translation of the messages *)

(** The dictionary of [traduzir], in its order. *)
Definition translations : list (string * string) :=
  [
    ("Filter Selected",
     "Filtra Selecionados");
    ("Select a valid vector layer",
     "Selecione uma camada vetorial válida");
    ("No features selected",
     "Nenhuma feição selecionada");
    ("Filter cancelled by user",
     "Filtro cancelado pelo usuário");
    ("No field with unique values found",
     "Nenhum campo com valores únicos encontrado");
    ("Failed to create auxiliary field: ",
     "Falha ao criar campo auxiliar: ");
    ("Error during filtering: ",
     "Erro durante a filtragem: ");
    ("Layer: ",
     "Camada: ");
    ("Filtered features: ",
     "Feições filtradas: ");
    ("Field used: ",
     "Campo utilizado: ");
    ("Warning: Large number of selected features in WFS layer!" +:+ nl +:+ nl,
     "Aviso: Grande número de feições selecionadas na camada WFS!" +:+ nl +:+ nl) ].

(** The text that tells the warning apart. *)
Definition marcador_aviso : string :=
  "selected features can result in excessively long URLs".

(** What follows the count in the English and in the Portuguese text of
    the warning. *)
Definition cauda_aviso_en : string :=
  " selected features can result in excessively long URLs, affecting the visualization of the layer in QGIS."
  +:+ nl
  +:+ nl
  +:+ "It is recommended to save the layer locally to apply filters to a large number of features."
  +:+ nl
  +:+ nl
  +:+ "Do you want to proceed anyway?".

Definition cauda_aviso_pt : string :=
  " feições selecionadas podem resultar em URLs excessivamente longas, comprometendo a visualização da camada no QGIS."
  +:+ nl
  +:+ nl
  +:+ "Recomenda-se salvar a camada localmente para aplicar filtros em um grande número de feições."
  +:+ nl
  +:+ nl
  +:+ "Deseja prosseguir mesmo assim?".

(** [d.get(k, padrao)] on a dictionary given by its items. *)
Fixpoint dict_get (d : list (string * string)) (k padrao : string) : string :=
  match d with
  | [] => padrao
  | (k', v) :: resto => if String.eqb k' k then v else dict_get resto k padrao
  end.

(** [new.join(s)] with [new] after every character: what
    [s.replace('', new)] puts behind its leading [new]. *)
Fixpoint intercalar (new s : string) : string :=
  match s with
  | EmptyString => EmptyString
  | String c r => String c (new +:+ intercalar new r)
  end.

(** The scan of [s.replace(old, new)] for a non-empty [old]: occurrences
    are replaced from the left and do not overlap; [saltar] counts the
    characters of an occurrence still to be skipped. *)
Fixpoint replace_scan (old new : string) (saltar : nat) (s : string) : string :=
  match s with
  | EmptyString => EmptyString
  | String c r =>
      match saltar with
      | S k => replace_scan old new k r
      | O =>
          if String.prefix old s
          then new +:+ replace_scan old new (String.length old - 1) r
          else String c (replace_scan old new 0 r)
      end
  end.

(** [s.replace(old, new)] *)
Definition py_replace (old new s : string) : string :=
  match old with
  | EmptyString => new +:+ intercalar new s
  | _ => replace_scan old new 0 s
  end.

(** [traduzir(texto, n_selecionados)] under the language name [locale] that
    [QLocale().languageToString(QLocale().language())] gives. *)
Definition traduzir_locale (locale texto : string) (n_selecionados : nat)
    : string :=
  if String.eqb locale "Portuguese (Brazil)" || String.eqb locale "Portuguese"
  then
    let translated_text := dict_get translations texto texto in
    if Py.contains marcador_aviso texto
    then py_replace (pretty n_selecionados +:+ cauda_aviso_en)
                    (pretty n_selecionados +:+ cauda_aviso_pt) translated_text
    else translated_text
  else texto.

(** * Theorems *)

(** ** Uniqueness *)

Section Unicidade.

Implicit Types (l : list value) (valores : gset value).

Lemma size_list_to_set_le l :
  (size (list_to_set l : gset value) <= length l)%nat.
Proof.
  induction l as [|v l IH].
  - rewrite list_to_set_nil, size_empty. simpl. lia.
  - rewrite list_to_set_cons. simpl length.
    destruct (decide (v ∈ l)) as [Hin|Hnin].
    + assert (({[v]} ∪ list_to_set l : gset value) = list_to_set l) as ->
        by set_solver.
      lia.
    + rewrite size_union by set_solver. rewrite size_singleton. lia.
Qed.

Lemma size_list_to_set_NoDup l :
  size (list_to_set l : gset value) = length l <-> NoDup l.
Proof.
  split; [|apply size_list_to_set].
  induction l as [|v l IH]; intros Hsize.
  - constructor.
  - rewrite list_to_set_cons in Hsize. simpl length in Hsize.
    destruct (decide (v ∈ l)) as [Hin|Hnin].
    + assert (({[v]} ∪ list_to_set l : gset value) = list_to_set l) as Heq
        by set_solver.
      rewrite Heq in Hsize. pose proof (size_list_to_set_le l). lia.
    + rewrite size_union in Hsize by set_solver.
      rewrite size_singleton in Hsize.
      constructor; [done|]. apply IH. lia.
Qed.

(** What the loop leaves: the accumulated set when the values are pairwise
    distinct and new, the early [False] otherwise. *)
Lemma campo_e_unico_loop_spec indice feats valores :
  let l := map (fun feat => normalizar (attribute feat indice)) feats in
  match campo_e_unico_loop indice feats valores with
  | Some valores' =>
      NoDup l /\ (forall v, v ∈ l -> v ∉ valores)
      /\ valores' = valores ∪ list_to_set l
  | None => ~ (NoDup l /\ forall v, v ∈ l -> v ∉ valores)
  end.
Proof.
  revert valores. induction feats as [|feat resto IH]; intros valores; simpl.
  - split; [constructor|]. split; [set_solver|set_solver].
  - case_decide as Hin.
    + intros [_ Hnew]. apply (Hnew (normalizar (attribute feat indice))); [|done].
      apply elem_of_cons. by left.
    + specialize (IH (valores ∪ {[normalizar (attribute feat indice)]})).
      simpl in IH.
      destruct (campo_e_unico_loop indice resto _) as [valores'|].
      * destruct IH as (Hnd & Hnew & ->). split; [|split].
        -- constructor; [|done]. intros Hx. apply (Hnew _ Hx). set_solver.
        -- intros v [->|Hv]%elem_of_cons; [done|].
           intros Hv'. apply (Hnew _ Hv). set_solver.
        -- set_solver.
      * intros [Hnd Hnew]. apply IH.
        apply NoDup_cons in Hnd as [Hx Hnd]. split; [done|].
        intros v Hv [Hv'| ->%elem_of_singleton]%elem_of_union; [|done].
        apply (Hnew v); [|done]. apply elem_of_cons. by right.
Qed.

Lemma valores_normalizados_lookup camada nome_campo indice :
  lookupField (fields camada) nome_campo = Some indice ->
  valores_normalizados camada nome_campo
  = map (fun feat => normalizar (attribute feat indice)) (features camada).
Proof.
  intros H. unfold valores_normalizados, projetar. by rewrite H.
Qed.

Lemma campo_e_unico_NoDup camada nome_campo :
  campo_e_unico camada nome_campo = true
  <-> is_Some (lookupField (fields camada) nome_campo)
      /\ sem_valores_repetidos camada nome_campo.
Proof.
  unfold campo_e_unico, sem_valores_repetidos.
  destruct (lookupField (fields camada) nome_campo) as [indice|] eqn:Hidx.
  - rewrite (valores_normalizados_lookup _ _ _ Hidx).
    pose proof (campo_e_unico_loop_spec indice (features camada) ∅) as Hloop.
    simpl in Hloop.
    destruct (campo_e_unico_loop indice (features camada) ∅) as [valores'|].
    + destruct Hloop as (Hnd & _ & ->). split.
      * intros _. split; [by eexists|done].
      * intros _. apply Nat.eqb_eq.
        rewrite (left_id_L ∅ (∪)). rewrite size_list_to_set by done.
        unfold featureCount. by rewrite length_map.
    + split; [done|]. intros [_ Hnd]. exfalso. apply Hloop.
      split; [done|set_solver].
  - split; [done|]. by intros [[? ?] _].
Qed.

End Unicidade.

(** ** Looking fields up *)

Section Procura.

Implicit Types (campos : list QgsField) (p : QgsField -> bool).

Lemma primeiro_indice_Some p campos indice :
  primeiro_indice p campos = Some indice ->
  exists campo, campos !! indice = Some campo /\ p campo = true.
Proof.
  revert indice. induction campos as [|c resto IH]; simpl; intros indice; [done|].
  destruct (p c) eqn:Hp.
  - intros [= <-]. by exists c.
  - destruct (primeiro_indice p resto) as [j|]; [|done].
    intros [= <-]. by apply IH.
Qed.

Lemma primeiro_indice_None p campos :
  primeiro_indice p campos = None
  <-> forall campo, campo ∈ campos -> p campo = false.
Proof.
  induction campos as [|c resto IH]; simpl.
  - split; [|done]. by intros _ campo ?%elem_of_nil.
  - destruct (p c) eqn:Hp.
    + split; [done|]. intros Hall. rewrite Hall in Hp; [done|].
      apply elem_of_cons. by left.
    + destruct (primeiro_indice p resto) as [j|].
      * split; [done|]. intros Hall.
        assert (Some j = None) as Hn; [|done].
        apply IH. intros campo Hin. apply Hall, elem_of_cons. by right.
      * split; [|done]. intros _ campo [->|Hin]%elem_of_cons; [done|].
        by apply IH.
Qed.

Lemma primeiro_indice_app_l p campos mais indice :
  primeiro_indice p campos = Some indice ->
  primeiro_indice p (campos ++ mais) = Some indice.
Proof.
  revert indice. induction campos as [|c resto IH]; intros indice; [done|].
  simpl. destruct (p c); [done|].
  destruct (primeiro_indice p resto) as [j|]; [|done].
  intros [= <-]. by rewrite (IH j).
Qed.

Lemma primeiro_indice_app_r p campos campo :
  (forall c, c ∈ campos -> p c = false) ->
  p campo = true ->
  primeiro_indice p (campos ++ [campo]) = Some (length campos).
Proof.
  intros Hantes Hp. induction campos as [|c resto IH]; simpl.
  - by rewrite Hp.
  - rewrite (Hantes c) by (apply elem_of_cons; by left).
    rewrite IH; [done|]. intros c' Hc'. apply Hantes, elem_of_cons. by right.
Qed.

Lemma indexFromName_names campos nome_campo :
  is_Some (indexFromName campos nome_campo) <-> nome_campo ∈ names campos.
Proof.
  unfold indexFromName. split.
  - intros [indice (c & Hc & <-%String.eqb_eq)%primeiro_indice_Some].
    unfold names. apply (list_elem_of_fmap_2 name).
    by apply (list_elem_of_lookup_2 _ indice).
  - intros (c & -> & Hc)%(list_elem_of_fmap_1 name).
    destruct (primeiro_indice _ campos) as [indice|] eqn:Hidx; [by eexists|].
    rewrite primeiro_indice_None in Hidx. specialize (Hidx c Hc).
    simpl in Hidx. by rewrite String.eqb_refl in Hidx.
Qed.

Lemma indexFromName_name campos nome_campo indice :
  indexFromName campos nome_campo = Some indice ->
  exists campo, campos !! indice = Some campo /\ name campo = nome_campo.
Proof.
  intros (c & Hc & Hn%String.eqb_eq)%primeiro_indice_Some. by exists c.
Qed.

(** A name the schema has is resolved by the exact match. *)
Lemma lookupField_indexFromName campos nome_campo indice :
  indexFromName campos nome_campo = Some indice ->
  lookupField campos nome_campo = Some indice.
Proof. unfold lookupField. by intros ->. Qed.

Lemma lookupField_exato campos nome_campo :
  nome_campo ∈ names campos ->
  lookupField campos nome_campo = indexFromName campos nome_campo.
Proof.
  intros [indice Hidx]%indexFromName_names.
  by rewrite (lookupField_indexFromName _ _ _ Hidx).
Qed.

Lemma lookupField_names campos nome_campo :
  nome_campo ∈ names campos -> is_Some (lookupField campos nome_campo).
Proof.
  intros Hin. rewrite lookupField_exato by done. by apply indexFromName_names.
Qed.

(** Whatever the match, the index is one of the schema. *)
Lemma lookupField_Some campos nome_campo indice :
  lookupField campos nome_campo = Some indice ->
  exists campo, campos !! indice = Some campo.
Proof.
  unfold lookupField, indexFromName.
  destruct (primeiro_indice _ campos) as [i|] eqn:H1.
  { intros [= <-]. apply primeiro_indice_Some in H1 as (c & Hc & _). by exists c. }
  destruct (String.eqb nome_campo ""); [done|].
  destruct (primeiro_indice (fun campo => igual_sem_caixa _ _) campos)
    as [i|] eqn:H2.
  { intros [= <-]. apply primeiro_indice_Some in H2 as (c & Hc & _). by exists c. }
  intros (c & Hc & _)%primeiro_indice_Some. by exists c.
Qed.

Lemma lookupField_lt campos nome_campo indice :
  lookupField campos nome_campo = Some indice -> (indice < length campos)%nat.
Proof.
  intros (c & Hc)%lookupField_Some. by apply lookup_lt_Some in Hc.
Qed.


(** The exact match finds the name and nothing else. *)
Lemma lookupField_name campos nome_campo indice :
  nome_campo ∈ names campos ->
  lookupField campos nome_campo = Some indice ->
  exists campo, campos !! indice = Some campo /\ name campo = nome_campo.
Proof.
  intros Hin. rewrite lookupField_exato by done. apply indexFromName_name.
Qed.

Lemma lookupField_app_l campos mais nome_campo :
  nome_campo ∈ names campos ->
  lookupField (campos ++ mais) nome_campo = lookupField campos nome_campo.
Proof.
  intros Hin. rewrite !lookupField_exato; [|done|].
  - apply indexFromName_names in Hin as [indice Hidx]. rewrite Hidx.
    by apply primeiro_indice_app_l.
  - unfold names. rewrite map_app. apply elem_of_app. by left.
Qed.

Lemma lookupField_app_r campos campo :
  name campo ∉ names campos ->
  lookupField (campos ++ [campo]) (name campo) = Some (length campos).
Proof.
  intros Hnin. apply lookupField_indexFromName, primeiro_indice_app_r.
  - intros c Hc. apply String.eqb_neq. intros Heq. apply Hnin.
    rewrite <- Heq. unfold names. by apply (list_elem_of_fmap_2 name).
  - apply String.eqb_refl.
Qed.

End Procura.

(** ** The two oracles together *)

Section Oraculos.

Variable camada : QgsVectorLayer.

Lemma possui_valores_nulos_loop_Ret feats nome_campo indice :
  lookupField (fields camada) nome_campo = Some indice ->
  possui_valores_nulos_loop camada feats nome_campo
  = Ret (existsb (fun feat =>
                    bool_decide (projetar camada nome_campo feat = VNone)) feats).
Proof.
  intros Hidx. induction feats as [|feat resto IH]; [done|].
  simpl. unfold getitem, projetar. rewrite Hidx. simpl.
  destruct (attribute feat indice) eqn:Hv; simpl; [done| |].
  - rewrite IH. unfold projetar. by rewrite Hidx.
  - rewrite IH. unfold projetar. by rewrite Hidx.
Qed.

Lemma possui_valores_nulos_Ret nome_campo :
  is_Some (lookupField (fields camada) nome_campo) ->
  possui_valores_nulos camada nome_campo = Ret (tem_nulo camada nome_campo).
Proof.
  intros [indice Hidx]. by apply possui_valores_nulos_loop_Ret with indice.
Qed.

Lemma campo_e_unico_lookup nome_campo :
  campo_e_unico camada nome_campo = true ->
  is_Some (lookupField (fields camada) nome_campo).
Proof. intros H. by apply campo_e_unico_NoDup in H as [? _]. Qed.

(** The conjunction of the two calls never raises: the null scan runs only
    on a name the uniqueness scan found in the schema. *)
Lemma unico_sem_nulos_Ret nome_campo :
  unico_sem_nulos camada nome_campo = Ret (qualifica camada nome_campo).
Proof.
  unfold unico_sem_nulos, qualifica.
  destruct (campo_e_unico camada nome_campo) eqn:Hu; [|done].
  rewrite possui_valores_nulos_Ret by by apply campo_e_unico_lookup.
  done.
Qed.

Lemma qualifica_lookup nome_campo :
  qualifica camada nome_campo = true ->
  is_Some (lookupField (fields camada) nome_campo)
  /\ campo_e_unico camada nome_campo = true.
Proof.
  unfold qualifica. intros [Hu _]%andb_prop. split; [|done].
  by apply campo_e_unico_lookup.
Qed.

Lemma primeiro_unico_spec campos :
  primeiro_unico camada campos
  = Ret (primeiro (fun campo => qualifica camada (name campo)) campos).
Proof.
  unfold primeiro.
  induction campos as [|campo resto IH]; [done|].
  simpl. rewrite unico_sem_nulos_Ret. simpl.
  by destruct (qualifica camada (name campo)).
Qed.

Lemma varrer_campos_spec g campos :
  varrer_campos camada g campos = Ret (primeiro (qualifica_em camada g) campos).
Proof.
  unfold primeiro, qualifica_em.
  induction campos as [|campo resto IH]; [done|].
  simpl. destruct (nome_valido g campo && tipo_valido g campo); simpl; [|done].
  rewrite unico_sem_nulos_Ret. simpl.
  by destruct (qualifica camada (name campo)).
Qed.

Lemma varrer_prioridades_spec grupos :
  varrer_prioridades camada grupos = Ret (primeiro_grupo camada grupos).
Proof.
  induction grupos as [|g resto IH]; [done|].
  simpl. rewrite varrer_campos_spec. simpl.
  by destruct (primeiro (qualifica_em camada g) (fields camada)).
Qed.

Lemma primeiro_Some p campos nome_campo :
  primeiro p campos = Some nome_campo ->
  exists campo, campo ∈ campos /\ name campo = nome_campo /\ p campo = true
                /\ List.find p campos = Some campo.
Proof.
  unfold primeiro. destruct (List.find p campos) as [campo|] eqn:Hf; [|done].
  intros [= <-]. exists campo. apply find_some in Hf as Hf'.
  destruct Hf' as [Hin Hp]. by rewrite list_elem_of_In.
Qed.

Lemma primeiro_None p campos :
  primeiro p campos = None <-> forall campo, campo ∈ campos -> p campo = false.
Proof.
  unfold primeiro. split.
  - destruct (List.find p campos) eqn:Hf; [done|]. intros _ campo Hin.
    apply (find_none _ _ Hf). by apply list_elem_of_In.
  - intros Hall. destruct (List.find p campos) as [campo|] eqn:Hf; [|done].
    apply find_some in Hf as [Hin Hp]. apply list_elem_of_In in Hin.
    rewrite (Hall _ Hin) in Hp. done.
Qed.

End Oraculos.

(** ** The auxiliary field *)

Section CampoAuxiliar.

Lemma str_in_list_elem_of s l : str_in_list s l = true <-> s ∈ l.
Proof.
  unfold str_in_list. rewrite existsb_exists. split.
  - intros (x & Hin & ->%String.eqb_eq). by apply list_elem_of_In.
  - intros Hin. exists s. split; [by apply list_elem_of_In|apply String.eqb_refl].
Qed.

Lemma com_campo_auxiliar_names camada :
  id_row_nr ∈ names (fields (com_campo_auxiliar camada)).
Proof.
  unfold com_campo_auxiliar.
  destruct (str_in_list id_row_nr (names (fields camada))) eqn:Hin.
  - by apply str_in_list_elem_of.
  - simpl. unfold names. rewrite map_app. apply elem_of_app. right.
    apply elem_of_cons. by left.
Qed.

(** The layer with the auxiliary field has it at a valid index. *)
Lemma com_campo_auxiliar_lookup camada :
  exists indice,
    lookupField (fields (com_campo_auxiliar camada)) id_row_nr = Some indice.
Proof.
  unfold com_campo_auxiliar.
  destruct (str_in_list id_row_nr (names (fields camada))) eqn:Hin.
  - apply str_in_list_elem_of, lookupField_names in Hin as [indice Hidx].
    by exists indice.
  - exists (length (fields camada)). simpl.
    apply (lookupField_app_r _ (mkField id_row_nr QVariantInt)).
    intros Hin'%str_in_list_elem_of. simpl in Hin'. congruence.
Qed.

Lemma com_campo_auxiliar_wf camada :
  wf_layer camada -> wf_layer (com_campo_auxiliar camada).
Proof.
  unfold com_campo_auxiliar, wf_layer.
  destruct (str_in_list id_row_nr (names (fields camada))); [done|].
  simpl. intros Hwf. apply Forall_fmap. eapply Forall_impl; [exact Hwf|].
  intros feat Hlen. simpl. rewrite !length_app, Hlen. done.
Qed.

Lemma numerar_Ret camada nome_campo indice i feats :
  lookupField (fields camada) nome_campo = Some indice ->
  numerar camada nome_campo i feats = Ret (renumerar indice i feats).
Proof.
  intros Hidx. revert i. induction feats as [|feat resto IH]; intros i; [done|].
  simpl. unfold setitem. rewrite Hidx. simpl. by rewrite IH.
Qed.

Lemma renumerar_fid indice i feats :
  map fid (renumerar indice i feats) = map fid feats.
Proof.
  revert i. induction feats as [|feat resto IH]; intros i; [done|].
  simpl. by rewrite IH.
Qed.

Lemma renumerar_length indice i feats :
  length (renumerar indice i feats) = length feats.
Proof.
  revert i. induction feats as [|feat resto IH]; intros i; [done|].
  simpl. by rewrite IH.
Qed.

(** The renumbered attribute reads [i + 1], [i + 2], ... *)
Lemma renumerar_coluna indice i feats :
  Forall (fun feat => (indice < length (attributes feat))%nat) feats ->
  coluna indice (renumerar indice i feats)
  = map VInt (seqZ (i + 1) (Z.of_nat (length feats))).
Proof.
  unfold coluna.
  intros Hlen. revert i. induction Hlen as [|feat resto Hfeat _ IH]; intros i.
  - done.
  - simpl length. rewrite seqZ_cons by lia. simpl.
    unfold attribute at 1. simpl. rewrite list_lookup_insert_eq by done. simpl.
    f_equal. rewrite IH. do 2 f_equal; lia.
Qed.

(** The other attributes keep their values. *)
Lemma renumerar_coluna_ne indice j i feats :
  indice <> j ->
  coluna j (renumerar indice i feats) = coluna j feats.
Proof.
  unfold coluna.
  intros Hne. revert i. induction feats as [|feat resto IH]; intros i; [done|].
  simpl. rewrite IH. f_equal. unfold attribute. simpl.
  by rewrite list_lookup_insert_ne.
Qed.

Lemma renumerar_wf indice i feats n :
  Forall (fun feat => length (attributes feat) = n) feats ->
  Forall (fun feat => length (attributes feat) = n) (renumerar indice i feats).
Proof.
  intros Hwf. revert i. induction Hwf as [|feat resto Hfeat _ IH]; intros i.
  - constructor.
  - simpl. constructor; [|apply IH]. simpl. by rewrite length_insert.
Qed.

Lemma renumerar_idemp indice i feats :
  renumerar indice i (renumerar indice i feats) = renumerar indice i feats.
Proof.
  revert i. induction feats as [|feat resto IH]; intros i; [done|].
  simpl. by rewrite IH, list_insert_insert_eq.
Qed.

End CampoAuxiliar.

(** ** Runs of the stateful functions *)

Section Execucoes.

Implicit Types (w : mundo).

(** A run that passes the guard, by what the host answers to
    [startEditing()] and [commitChanges()]. *)
Lemma gerenciar_campo_auxiliar_run w :
  aceita_campo_auxiliar (camada_de w) = true ->
  gerenciar_campo_auxiliar w
  = if startEditing (camada_de w) then
      if commitChanges (camada_de w) then
        (Ret (Some id_row_nr),
         mkMundo (campo_auxiliar_numerado (camada_de w))
           (eventos w ++ [EditSession]))
      else
        (Ret None,
         mkMundo (campo_auxiliar_numerado (camada_de w))
           ((eventos w ++ [EditSession])
              ++ [msg_falha_auxiliar (commitErrors (camada_de w))]))
    else
      (Ret None, mkMundo (camada_de w) (eventos w ++ [msg_falha_auxiliar ""])).
Proof.
  unfold aceita_campo_auxiliar. intros [Htipo Hedit]%andb_prop.
  apply negb_true_iff in Htipo.
  unfold gerenciar_campo_auxiliar, bind, get_camada. simpl.
  rewrite Htipo, Hedit. simpl.
  unfold try_except, edit, bind. simpl.
  destruct (startEditing (camada_de w)); [|done].
  unfold campo_auxiliar_numerado.
  destruct (com_campo_auxiliar_lookup (camada_de w)) as [indice Hidx].
  rewrite Hidx. revert Hidx. unfold com_campo_auxiliar, id_row_nr.
  destruct (str_in_list "id_row_nr" (names (fields (camada_de w)))) eqn:Hin;
    simpl; intros Hidx.
  - unfold lift. rewrite (numerar_Ret _ _ _ _ _ Hidx). simpl.
    by destruct (commitChanges (camada_de w)).
  - unfold lift.
    rewrite (numerar_Ret (addAttributes (camada_de w) _) _ indice) by done.
    simpl. by destruct (commitChanges (camada_de w)).
Qed.

Lemma gerenciar_campo_auxiliar_ok w :
  aceita_campo_auxiliar (camada_de w) = true ->
  edit_ok (camada_de w) = true ->
  gerenciar_campo_auxiliar w
  = (Ret (Some id_row_nr),
     mkMundo (campo_auxiliar_numerado (camada_de w)) (eventos w ++ [EditSession])).
Proof.
  intros Hac [Hstart Hcommit]%andb_prop.
  by rewrite gerenciar_campo_auxiliar_run, Hstart, Hcommit.
Qed.

Lemma gerenciar_campo_auxiliar_recusa w :
  aceita_campo_auxiliar (camada_de w) = false ->
  gerenciar_campo_auxiliar w = (Ret None, w).
Proof.
  unfold aceita_campo_auxiliar, gerenciar_campo_auxiliar, bind, get_camada.
  simpl. intros H.
  destruct (wfs_ou_csv _); simpl in *; [done|]. by rewrite H.
Qed.

(** A session that fails returns nothing; the layer is as it was when the
    session did not open, and as the body left it when the commit failed. *)
Lemma gerenciar_campo_auxiliar_falha w :
  aceita_campo_auxiliar (camada_de w) = true ->
  edit_ok (camada_de w) = false ->
  exists camada' evs,
    gerenciar_campo_auxiliar w = (Ret None, mkMundo camada' (eventos w ++ evs))
    /\ (camada' = camada_de w
        \/ camada' = campo_auxiliar_numerado (camada_de w)).
Proof.
  intros Hac Hok. rewrite gerenciar_campo_auxiliar_run by done.
  unfold edit_ok in Hok.
  destruct (startEditing (camada_de w)).
  - simpl in Hok. rewrite Hok. eexists _, _.
    rewrite <- app_assoc. split; [done|by right].
  - eexists _, _. split; [done|by left].
Qed.

Lemma campo_auxiliar_numerado_fields camada :
  fields (campo_auxiliar_numerado camada) = fields (com_campo_auxiliar camada).
Proof.
  unfold campo_auxiliar_numerado.
  by destruct (lookupField (fields (com_campo_auxiliar camada)) id_row_nr).
Qed.

Lemma campo_auxiliar_numerado_features camada indice :
  lookupField (fields (com_campo_auxiliar camada)) id_row_nr = Some indice ->
  features (campo_auxiliar_numerado camada)
  = renumerar indice 0 (features (com_campo_auxiliar camada)).
Proof. unfold campo_auxiliar_numerado. by intros ->. Qed.

Lemma com_campo_auxiliar_length camada :
  length (features (com_campo_auxiliar camada)) = length (features camada).
Proof.
  unfold com_campo_auxiliar.
  destruct (str_in_list id_row_nr (names (fields camada))); [done|].
  simpl. by rewrite length_map.
Qed.

Lemma wf_layer_lt camada indice :
  wf_layer camada -> (indice < length (fields camada))%nat ->
  Forall (fun feat => (indice < length (attributes feat))%nat) (features camada).
Proof.
  unfold wf_layer. intros Hwf Hlt. eapply Forall_impl; [exact Hwf|].
  simpl. intros feat ->. done.
Qed.

(** The auxiliary field holds 1, 2, ..., N in iteration order. *)
Lemma campo_auxiliar_numerado_coluna camada indice :
  wf_layer camada ->
  lookupField (fields (campo_auxiliar_numerado camada)) id_row_nr = Some indice ->
  coluna indice (features (campo_auxiliar_numerado camada))
  = map VInt (seqZ 1 (Z.of_nat (featureCount camada))).
Proof.
  intros Hwf. rewrite campo_auxiliar_numerado_fields. intros Hidx.
  rewrite (campo_auxiliar_numerado_features _ _ Hidx).
  rewrite renumerar_coluna.
  - by rewrite com_campo_auxiliar_length.
  - apply wf_layer_lt; [by apply com_campo_auxiliar_wf|].
    by apply lookupField_lt in Hidx.
Qed.

Lemma campo_auxiliar_numerado_wf camada :
  wf_layer camada -> wf_layer (campo_auxiliar_numerado camada).
Proof.
  intros Hwf%com_campo_auxiliar_wf. unfold campo_auxiliar_numerado.
  destruct (lookupField (fields (com_campo_auxiliar camada)) id_row_nr); [|done].
  unfold wf_layer. simpl. by apply renumerar_wf.
Qed.

Lemma normalizar_VInt (l : list Z) : map normalizar (map VInt l) = map VInt l.
Proof. induction l; simpl; congruence. Qed.

(** The auxiliary field passes the uniqueness oracle. *)
Lemma campo_auxiliar_numerado_unico camada :
  wf_layer camada ->
  campo_e_unico (campo_auxiliar_numerado camada) id_row_nr = true.
Proof.
  intros Hwf. apply campo_e_unico_NoDup.
  destruct (com_campo_auxiliar_lookup camada) as [indice Hidx].
  rewrite <- campo_auxiliar_numerado_fields in Hidx.
  split; [by eexists|]. unfold sem_valores_repetidos.
  rewrite (valores_normalizados_lookup _ _ _ Hidx).
  pose proof (campo_auxiliar_numerado_coluna _ _ Hwf Hidx) as Hcol.
  unfold coluna in Hcol.
  rewrite <- (map_map (fun feat => attribute feat indice) normalizar).
  rewrite Hcol, normalizar_VInt.
  assert (Inj (=) (=) VInt) by (by intros ?? [= ->]).
  apply (NoDup_fmap_2 VInt), NoDup_seqZ.
Qed.

Lemma com_campo_auxiliar_idemp camada :
  com_campo_auxiliar (campo_auxiliar_numerado camada)
  = campo_auxiliar_numerado camada.
Proof.
  unfold com_campo_auxiliar at 1.
  assert (id_row_nr ∈ names (fields (campo_auxiliar_numerado camada))) as Hin
    by (rewrite campo_auxiliar_numerado_fields; apply com_campo_auxiliar_names).
  apply str_in_list_elem_of in Hin. by rewrite Hin.
Qed.

(** A second run leaves the layer as the first did. *)
Lemma campo_auxiliar_numerado_idemp camada :
  campo_auxiliar_numerado (campo_auxiliar_numerado camada)
  = campo_auxiliar_numerado camada.
Proof.
  unfold campo_auxiliar_numerado at 1. rewrite com_campo_auxiliar_idemp.
  destruct (com_campo_auxiliar_lookup camada) as [indice Hidx].
  rewrite campo_auxiliar_numerado_fields, Hidx.
  rewrite (campo_auxiliar_numerado_features _ _ Hidx), renumerar_idemp.
  unfold campo_auxiliar_numerado. rewrite Hidx. done.
Qed.

Lemma aceita_campo_auxiliar_numerado camada :
  aceita_campo_auxiliar (campo_auxiliar_numerado camada)
  = aceita_campo_auxiliar camada.
Proof.
  unfold campo_auxiliar_numerado, com_campo_auxiliar.
  destruct (str_in_list id_row_nr (names (fields camada)));
    by destruct (lookupField _ id_row_nr).
Qed.

Lemma edit_ok_campo_auxiliar_numerado camada :
  edit_ok (campo_auxiliar_numerado camada) = edit_ok camada.
Proof.
  unfold campo_auxiliar_numerado, com_campo_auxiliar.
  destruct (str_in_list id_row_nr (names (fields camada)));
    by destruct (lookupField _ id_row_nr).
Qed.

(** The resolver returns, whatever the catalogue does. *)
Lemma obter_chave_primaria_run w :
  obter_chave_primaria w
  = match obter_chave_primaria_try (camada_de w) with
    | Ret pk => (Ret pk, w)
    | Raise e =>
        (Ret VNone,
         mkMundo (camada_de w)
           (eventos w ++ [LogMessage QgisWarning
                            ("Erro ao obter PK: " +:+ str_exn e)]))
    end.
Proof.
  unfold obter_chave_primaria, bind, get_camada, try_except, lift. simpl.
  by destruct (obter_chave_primaria_try (camada_de w)).
Qed.

Lemma pk_serve_spec camada pk : pk_serve camada pk = pk_serve_puro camada pk.
Proof.
  unfold pk_serve, pk_serve_puro.
  destruct pk as [|z|nome_campo]; simpl; [done| |].
  - by destruct (Z.eqb z 0).
  - rewrite unico_sem_nulos_Ret. by destruct (String.eqb nome_campo "").
Qed.

(** The selector, branch by branch. *)
Lemma identificar_campo_filtro_database w :
  identificar_tipo_camada (camada_de w) = Tdatabase ->
  identificar_campo_filtro w
  = match obter_chave_primaria w with
    | (Ret pk, w1) =>
        match pk_serve_puro (camada_de w) pk with
        | Ret true => (Ret (Some (str pk)), w1)
        | Ret false =>
            (Ret (primeiro (fun campo => qualifica (camada_de w) (name campo))
                    (fields (camada_de w))), w1)
        | Raise e => (Raise e, w1)
        end
    | (Raise e, w1) => (Raise e, w1)
    end.
Proof.
  intros Htipo. unfold identificar_campo_filtro, bind at 1, get_camada.
  rewrite Htipo. simpl. unfold bind at 1.
  destruct (obter_chave_primaria w) as [[pk|e] w1]; [|done].
  unfold bind, lift. rewrite pk_serve_spec.
  destruct (pk_serve_puro (camada_de w) pk) as [[|]|e]; [done| |done].
  by rewrite primeiro_unico_spec.
Qed.

Lemma identificar_campo_filtro_nao_editavel w :
  identificar_tipo_camada (camada_de w) <> Tdatabase ->
  aceita_campo_auxiliar (camada_de w) = false ->
  identificar_campo_filtro w
  = (Ret (primeiro (fun campo => qualifica (camada_de w) (name campo))
            (fields (camada_de w))), w).
Proof.
  intros Htipo Hrec. unfold identificar_campo_filtro, bind at 1, get_camada.
  rewrite bool_decide_eq_false_2 by done. simpl.
  unfold aceita_campo_auxiliar in Hrec.
  apply andb_false_iff in Hrec.
  assert (wfs_ou_csv (identificar_tipo_camada (camada_de w))
          || negb (camada_editavel (camada_de w)) = true) as ->.
  { destruct Hrec as [H|H].
    - apply negb_false_iff in H. by rewrite H.
    - rewrite H. simpl. by rewrite orb_true_r. }
  unfold lift. by rewrite primeiro_unico_spec.
Qed.

Lemma identificar_campo_filtro_editavel w :
  kml_file_temporary (identificar_tipo_camada (camada_de w)) = true ->
  camada_editavel (camada_de w) = true ->
  identificar_campo_filtro w
  = match primeiro_grupo (camada_de w) prioridades with
    | Some nome_campo => (Ret (Some nome_campo), w)
    | None => gerenciar_campo_auxiliar w
    end.
Proof.
  intros Htipo Hedit. unfold identificar_campo_filtro, bind, get_camada, lift.
  rewrite varrer_prioridades_spec, Hedit.
  destruct (identificar_tipo_camada (camada_de w)); try done;
    cbn -[primeiro_grupo prioridades];
    by destruct (primeiro_grupo (camada_de w) prioridades).
Qed.

Lemma identificar_campo_filtro_other w :
  identificar_tipo_camada (camada_de w) = Tother ->
  camada_editavel (camada_de w) = true ->
  identificar_campo_filtro w = (Ret None, w).
Proof.
  intros Htipo Hedit. unfold identificar_campo_filtro, bind at 1, get_camada.
  simpl. by rewrite Htipo, Hedit.
Qed.

End Execucoes.

(** ** The claims about the oracles and the selector *)

Lemma filter_eq_notin (l : list value) (v : value) :
  v ∉ l -> filter (fun x => x = v) l = [].
Proof.
  induction l as [|x l IH]; [done|]. intros [Hne Hnin]%not_elem_of_cons.
  rewrite filter_cons. case_decide; [congruence|]. by apply IH.
Qed.

Lemma NoDup_filter_eq_le (l : list value) (v : value) :
  NoDup l -> (length (filter (fun x => x = v) l) <= 1)%nat.
Proof.
  induction 1 as [|x l Hx Hnd IH]; [simpl; lia|].
  rewrite filter_cons. case_decide as Hxv; [|lia].
  subst x. simpl. rewrite filter_eq_notin by done. simpl. lia.
Qed.

(** C4 (as the code has it): [campo_e_unico] answers true exactly when
    [lookupField] finds the field in the schema and a record-by-record scan
    finds no two equal normalised values (strings stripped and lower-cased),
    which is exactly when the field is found and the set of normalised
    values has as many elements as the layer has records; a field with two
    or more null records is never unique.  For a name that [lookupField]
    does not find the answer is false, whatever the records. *)
Theorem campo_e_unico_correct (camada : QgsVectorLayer) (nome_campo : string) :
  (campo_e_unico camada nome_campo = true
   <-> is_Some (lookupField (fields camada) nome_campo)
       /\ sem_valores_repetidos camada nome_campo)
  /\ (campo_e_unico camada nome_campo = true
      <-> is_Some (lookupField (fields camada) nome_campo)
          /\ cardinalidade_completa camada nome_campo)
  /\ ((2 <= conta_nulos camada nome_campo)%nat ->
      campo_e_unico camada nome_campo = false).
Proof.
  pose proof (campo_e_unico_NoDup camada nome_campo) as Hnd.
  assert (cardinalidade_completa camada nome_campo
          <-> sem_valores_repetidos camada nome_campo) as Hcard.
  { unfold cardinalidade_completa, sem_valores_repetidos, featureCount.
    rewrite <- size_list_to_set_NoDup.
    unfold valores_normalizados. by rewrite length_map. }
  split; [exact Hnd|]. split; [by rewrite Hcard|].
  intros Hnulos. apply not_true_is_false. intros [_ Hu]%Hnd.
  pose proof (NoDup_filter_eq_le _ VNone Hu). unfold conta_nulos in Hnulos. lia.
Qed.

(** C4, as stated, fails for a name the schema lacks: on a layer without
    records no two values are equal and the set has as many elements as
    there are records (none), yet the guard on the index answers false. *)
Lemma campo_e_unico_campo_ausente :
  campo_e_unico camada_vazia "x" = false
  /\ sem_valores_repetidos camada_vazia "x"
  /\ cardinalidade_completa camada_vazia "x"
  /\ ~ (campo_e_unico camada_vazia "x" = true
        <-> sem_valores_repetidos camada_vazia "x").
Proof.
  assert (sem_valores_repetidos camada_vazia "x") as Hnd by constructor.
  split; [reflexivity|]. split; [exact Hnd|]. split; [reflexivity|].
  intros [_ H]. by specialize (H Hnd).
Qed.

(** On [camada_fid] the name column repeats a value and [fid] does not; on
    [camada_sem_aux] the geometry column is null on all three records. *)
Lemma campo_e_unico_correct_witness :
  campo_e_unico camada_fid "fid" = true
  /\ campo_e_unico camada_fid "nome" = false
  /\ campo_e_unico camada_sem_aux "geom" = false.
Proof.
  split; [|split].
  - apply (campo_e_unico_correct camada_fid "fid"). split; [by eexists|].
    unfold sem_valores_repetidos. vm_compute.
    repeat (constructor; [set_solver|]). constructor.
  - apply not_true_is_false.
    intros [_ Hnd]%(proj1 (campo_e_unico_correct camada_fid "nome")).
    unfold sem_valores_repetidos in Hnd. vm_compute in Hnd.
    apply NoDup_cons in Hnd as [_ Hnd]. apply NoDup_cons in Hnd as [Hnin _].
    set_solver.
  - apply (campo_e_unico_correct camada_sem_aux "geom"). vm_compute. lia.
Defined.

Lemma primeiro_grupo_Some camada grupos nome_campo :
  primeiro_grupo camada grupos = Some nome_campo ->
  exists g campo,
    g ∈ grupos /\ campo ∈ fields camada /\ name campo = nome_campo
    /\ qualifica_em camada g campo = true.
Proof.
  induction grupos as [|g resto IH]; [done|]. simpl.
  destruct (primeiro (qualifica_em camada g) (fields camada)) as [n|] eqn:Hp.
  - intros [= <-]. apply primeiro_Some in Hp as (campo & Hin & Hn & Hq & _).
    exists g, campo. split; [apply elem_of_cons; by left|done].
  - intros (g' & campo & Hg & H)%IH. exists g', campo.
    split; [apply elem_of_cons; by right|done].
Qed.

Lemma qualifica_em_qualifica camada g campo :
  qualifica_em camada g campo = true -> qualifica camada (name campo) = true.
Proof. unfold qualifica_em. by intros [_ ?]%andb_prop. Qed.

Lemma primeiro_names p campos nome_campo :
  primeiro p campos = Some nome_campo -> nome_campo ∈ names campos.
Proof.
  intros (c & Hin & <- & _)%primeiro_Some.
  unfold names. by apply (list_elem_of_fmap_2 name).
Qed.

(** Where a field name answered by the selector comes from: a field that
    passes both oracles on the untouched layer, named as the schema names it
    unless it is the key the catalogue gave; or the auxiliary field, just
    numbered. *)
Lemma identificar_campo_filtro_origem w w' campo :
  identificar_campo_filtro w = (Ret (Some campo), w') ->
  (camada_de w' = camada_de w
   /\ qualifica (camada_de w) campo = true
   /\ (campo ∈ names (fields (camada_de w))
       \/ (identificar_tipo_camada (camada_de w) = Tdatabase
           /\ obter_chave_primaria_try (camada_de w) = Ret (VStr campo))))
  \/ (camada_de w' = campo_auxiliar_numerado (camada_de w)
      /\ campo = id_row_nr
      /\ aceita_campo_auxiliar (camada_de w) = true
      /\ edit_ok (camada_de w) = true
      /\ primeiro_grupo (camada_de w) prioridades = None).
Proof.
  assert (forall (w1 : mundo),
            camada_de w1 = camada_de w ->
            (Ret (primeiro (fun c => qualifica (camada_de w) (name c))
                    (fields (camada_de w))), w1)
            = (Ret (Some campo), w') ->
            camada_de w' = camada_de w
            /\ qualifica (camada_de w) campo = true
            /\ (campo ∈ names (fields (camada_de w))
                \/ (identificar_tipo_camada (camada_de w) = Tdatabase
                    /\ obter_chave_primaria_try (camada_de w)
                       = Ret (VStr campo)))) as Hscan.
  { intros w1 Hw1 [= Hp <-]. split; [done|].
    pose proof (primeiro_names _ _ _ Hp) as Hin.
    apply primeiro_Some in Hp as (c & _ & <- & Hq & _). split; [done|by left]. }
  destruct (decide (identificar_tipo_camada (camada_de w) = Tdatabase)) as [Hdb|Hdb].
  - rewrite (identificar_campo_filtro_database _ Hdb), obter_chave_primaria_run.
    destruct (obter_chave_primaria_try (camada_de w)) as [pk|e] eqn:Hpk.
    + destruct pk as [|z|s]; simpl.
      * intros H. left. revert H. by apply Hscan.
      * destruct (Z.eqb z 0); [|done]. intros H. left. revert H. by apply Hscan.
      * destruct (negb (String.eqb s "") && qualifica (camada_de w) s) eqn:Hs.
        -- intros [= <- <-]. left. split; [done|].
           apply andb_prop in Hs as [_ Hq]. split; [done|]. right. by split.
        -- intros H. left. revert H. by apply Hscan.
    + simpl. intros H. left. revert H. by apply Hscan.
  - destruct (aceita_campo_auxiliar (camada_de w)) eqn:Hac.
    + pose proof Hac as Hac'. unfold aceita_campo_auxiliar in Hac.
      apply andb_prop in Hac as [Ht He].
      destruct (kml_file_temporary (identificar_tipo_camada (camada_de w))) eqn:Hk.
      * rewrite (identificar_campo_filtro_editavel _ Hk He).
        destruct (primeiro_grupo (camada_de w) prioridades) as [n|] eqn:Hg.
        -- intros [= <- <-]. left. split; [done|].
           apply primeiro_grupo_Some in Hg as (g & c & _ & Hc & <- & Hq).
           split; [by apply qualifica_em_qualifica with g|]. left.
           unfold names. by apply (list_elem_of_fmap_2 name).
        -- destruct (edit_ok (camada_de w)) eqn:Hok.
           ++ rewrite gerenciar_campo_auxiliar_ok by done.
              intros [= <- <-]. by right.
           ++ by destruct (gerenciar_campo_auxiliar_falha _ Hac' Hok)
                as (c' & evs & -> & _).
      * rewrite identificar_campo_filtro_other; [done| |done].
        by destruct (identificar_tipo_camada (camada_de w)).
    + rewrite (identificar_campo_filtro_nao_editavel _ Hdb Hac).
      intros H. left. revert H. by apply Hscan.
Qed.





(** ** Primary keys and the database branch *)

(** C9: [obter_chave_primaria] always returns.  When anything inside its
    [try] block raises, the catalogue query included, it returns [None]
    after writing one warning to the message log; for a provider it has no
    query for it returns [None] at once.  The layer is never touched. *)
Theorem obter_chave_primaria_nunca_propaga (w : mundo) :
  (exists pk w',
     obter_chave_primaria w = (Ret pk, w') /\ camada_de w' = camada_de w)
  /\ (forall e,
        obter_chave_primaria_try (camada_de w) = Raise e ->
        obter_chave_primaria w
        = (Ret VNone, mkMundo (camada_de w) (eventos w ++ [log_erro_pk e])))
  /\ (forall sql e,
        montar_consulta (camada_de w) = Some sql ->
        executeSql (camada_de w) sql = Raise e ->
        obter_chave_primaria w
        = (Ret VNone, mkMundo (camada_de w) (eventos w ++ [log_erro_pk e])))
  /\ (montar_consulta (camada_de w) = None ->
      obter_chave_primaria w = (Ret VNone, w)).
Proof.
  rewrite obter_chave_primaria_run. split; [|split; [|split]].
  - destruct (obter_chave_primaria_try (camada_de w)) as [pk|e];
      eexists _, _; split; reflexivity.
  - by intros e ->.
  - intros sql e Hsql Hexec. unfold obter_chave_primaria_try.
    by rewrite Hsql, Hexec.
  - intros Hsql. unfold obter_chave_primaria_try. by rewrite Hsql.
Qed.

(** On a PostGIS layer whose catalogue refuses the query the resolver
    answers [None] and logs the refusal. *)
Lemma obter_chave_primaria_nunca_propaga_witness :
  obter_chave_primaria (mkMundo camada_pg_negada [])
  = (Ret VNone,
     mkMundo camada_pg_negada [log_erro_pk (SqlError "permission denied")]).
Proof.
  apply (proj1 (proj2 (proj2
           (obter_chave_primaria_nunca_propaga (mkMundo camada_pg_negada []))))
         (PgIndex "public" "lotes") (SqlError "permission denied"));
    reflexivity.
Defined.

(** C2: on a layer classified as database the selector calls the resolver,
    which returns; it answers the resolved key when that is a non-empty name
    passing the uniqueness and the null scans; in every other case with a
    usable answer it answers the first field, in schema order, passing both
    scans, or nothing when there is none.  (A key that is neither a string
    nor false makes [lookupField] raise.)  The layer is left as it was and no
    edit session is opened: the only event the branch can add is the
    resolver's log record. *)
Theorem identificar_campo_filtro_ramo_database (w : mundo) :
  identificar_tipo_camada (camada_de w) = Tdatabase ->
  exists pk w1,
    obter_chave_primaria w = (Ret pk, w1)
    /\ identificar_campo_filtro w = (ramo_database (camada_de w) pk, w1)
    /\ camada_de w1 = camada_de w
    /\ (eventos w1 = eventos w \/ exists e, eventos w1 = eventos w ++ [log_erro_pk e]).
Proof.
  intros Hdb. rewrite (identificar_campo_filtro_database _ Hdb).
  rewrite obter_chave_primaria_run.
  assert (forall pk (w1 : mundo),
    match pk_serve_puro (camada_de w) pk with
    | Ret true => (Ret (Some (str pk)), w1)
    | Ret false =>
        (Ret (primeiro (fun c => qualifica (camada_de w) (name c))
                (fields (camada_de w))), w1)
    | Raise e => (Raise e, w1)
    end = (ramo_database (camada_de w) pk, w1)) as Hcasos.
  { intros [|z|s] w1; simpl; [done| |].
    - by destruct (Z.eqb z 0).
    - by destruct (negb (String.eqb s "") && qualifica (camada_de w) s). }
  destruct (obter_chave_primaria_try (camada_de w)) as [pk|e].
  - exists pk, w. split; [done|]. split; [apply Hcasos|]. split; [done|by left].
  - eexists VNone, _. split; [done|]. split; [apply Hcasos|].
    split; [done|]. right. by exists e.
Qed.

(** On [camada_pg] the catalogue names [gid], which is unique and free of
    nulls: the selector answers [gid] without touching the layer. *)
Lemma identificar_campo_filtro_ramo_database_witness :
  identificar_campo_filtro (mkMundo camada_pg [])
  = (Ret (Some "gid"), mkMundo camada_pg []).
Proof.
  destruct (identificar_campo_filtro_ramo_database (mkMundo camada_pg []))
    as (pk & w1 & Hpk & Hsel & _); [reflexivity|].
  rewrite Hsel. injection Hpk as <- <-. reflexivity.
Defined.

(** ** Name matching *)

Section Nomes.

Lemma prefix_spec (n s : string) :
  String.prefix n s = true <-> exists suf, s = n +:+ suf.
Proof.
  revert s. induction n as [|a n IH]; intros s; simpl.
  - split; [|by destruct s]. intros _. exists s. by destruct s.
  - destruct s as [|b s]; simpl.
    + split; [done|]. by intros [suf ?].
    + destruct (ascii_dec a b) as [->|Hne].
      * rewrite IH. split; intros [suf Hs]; exists suf.
        -- by rewrite Hs.
        -- by injection Hs.
      * split; [done|]. intros [suf [= ? ?]]. done.
Qed.

(** [Py.contains] decides the substring relation. *)
Lemma contains_spec (n s : string) :
  Py.contains n s = true <-> substring_of n s.
Proof.
  unfold substring_of. induction s as [|c s IH].
  - cbn [Py.contains]. rewrite orb_false_r, prefix_spec. split.
    + intros [suf Hs]. by exists "", suf.
    + intros ([|? pre] & suf & Hs); [by exists suf|done].
  - cbn [Py.contains]. rewrite orb_true_iff, prefix_spec, IH. split.
    + intros [[suf Hs]|(pre & suf & Hs)].
      * by exists "", suf.
      * exists (String c pre), suf. simpl. by rewrite Hs.
    + intros ([|c' pre] & suf & Hs).
      * left. by exists suf.
      * right. simpl in Hs. injection Hs as -> Hs. by exists pre, suf.
Qed.

Lemma tipo_valido_spec g campo :
  tipo_valido g campo = true <-> type campo ∈ tipos g.
Proof. unfold tipo_valido. apply bool_decide_eq_true. Qed.

Lemma nome_valido_grupo1 campo :
  nome_valido grupo1 campo = true
  <-> substring_of "fid" (Py.lower (name campo))
      \/ substring_of "id" (Py.lower (name campo))
      \/ substring_of "objectid" (Py.lower (name campo)).
Proof.
  unfold nome_valido. cbn [nomes grupo1 existsb].
  rewrite !orb_true_iff, !contains_spec. intuition congruence.
Qed.

End Nomes.

(** C3 (as the code has it): a field passes the name and type test of the
    first group exactly when its lower-cased name contains [fid], [id] or
    [objectid] as a substring and its type is integer or long integer; on an
    editable [kml], [file] or [temporary] layer the first such field, in
    schema order, that passes both oracles is what the selector answers. *)
Theorem grupo1_por_substring (w : mundo) (campo : QgsField) :
  (nome_valido grupo1 campo && tipo_valido grupo1 campo = true
   <-> (substring_of "fid" (Py.lower (name campo))
        \/ substring_of "id" (Py.lower (name campo))
        \/ substring_of "objectid" (Py.lower (name campo)))
       /\ (type campo = QVariantInt \/ type campo = QVariantLongLong))
  /\ (kml_file_temporary (identificar_tipo_camada (camada_de w)) = true ->
      camada_editavel (camada_de w) = true ->
      List.find (qualifica_em (camada_de w) grupo1) (fields (camada_de w))
      = Some campo ->
      identificar_campo_filtro w = (Ret (Some (name campo)), w)).
Proof.
  split.
  - rewrite andb_true_iff, nome_valido_grupo1, tipo_valido_spec.
    cbn [tipos grupo1]. rewrite !elem_of_cons, elem_of_nil. tauto.
  - intros Hk He Hfind. rewrite (identificar_campo_filtro_editavel _ Hk He).
    cbn [primeiro_grupo prioridades]. unfold primeiro at 1. by rewrite Hfind.
Qed.

(** C3, as stated, fails: [idade] merely contains [id], is not one of the
    three names, and still passes the first group's test; placed before a
    field called [id] it is the one the selector answers. *)
Lemma grupo1_aceita_idade :
  let campo := mkField "idade" QVariantInt in
  nome_valido grupo1 campo && tipo_valido grupo1 campo = true
  /\ ~ nome_exato_grupo1 campo
  /\ identificar_campo_filtro (mkMundo camada_idade [])
     = (Ret (Some "idade"), mkMundo camada_idade []).
Proof.
  split; [reflexivity|]. split; [|reflexivity].
  unfold nome_exato_grupo1. simpl.
  rewrite !elem_of_cons, elem_of_nil. intros [H|[H|[H|[]]]]; discriminate H.
Qed.

(** On [camada_idade] the first group finds [idade]. *)
Lemma grupo1_por_substring_witness :
  identificar_campo_filtro (mkMundo camada_idade [])
  = (Ret (Some "idade"), mkMundo camada_idade []).
Proof.
  apply (proj2 (grupo1_por_substring (mkMundo camada_idade [])
                  (mkField "idade" QVariantInt))); reflexivity.
Defined.

(** ** Priority tiers *)

Lemma nome_valido_name g campo campo' :
  name campo = name campo' -> nome_valido g campo = nome_valido g campo'.
Proof. unfold nome_valido. by intros ->. Qed.

(** C7 (as the code has it): on an editable [kml], [file] or [temporary]
    layer in which a field [F] qualifies at tier 2 and a field [G] qualifies
    at tier 4 and at no earlier tier, wherever the two stand in the schema,
    the selector answers a field of the schema that qualifies at tier 1 or 2,
    never [G], and leaves the layer alone.  When no field qualifies at tier 1
    the answer is the first field, in schema order, that qualifies at tier 2;
    when some field qualifies at tier 1 the answer qualifies at tier 1, and
    [F] is passed over unless it does so itself.  When [F] is the only field
    qualifying at tier 1 or 2 the answer is [F]. *)
Theorem tier2_preferido_a_tier4 (w : mundo) (F G : QgsField) :
  kml_file_temporary (identificar_tipo_camada (camada_de w)) = true ->
  camada_editavel (camada_de w) = true ->
  F ∈ fields (camada_de w) ->
  G ∈ fields (camada_de w) ->
  qualifica_em (camada_de w) grupo2 F = true ->
  qualifica_em (camada_de w) grupo4 G = true ->
  qualifica_em (camada_de w) grupo1 G = false ->
  qualifica_em (camada_de w) grupo2 G = false ->
  qualifica_em (camada_de w) grupo3 G = false ->
  exists campo,
    identificar_campo_filtro w = (Ret (Some (name campo)), w)
    /\ campo ∈ fields (camada_de w)
    /\ (qualifica_em (camada_de w) grupo1 campo = true
        \/ qualifica_em (camada_de w) grupo2 campo = true)
    /\ name campo <> name G
    /\ ((forall c, c ∈ fields (camada_de w) ->
           qualifica_em (camada_de w) grupo1 c = true
           \/ qualifica_em (camada_de w) grupo2 c = true -> c = F) ->
        campo = F)
    /\ ((forall c, c ∈ fields (camada_de w) ->
           qualifica_em (camada_de w) grupo1 c = false) ->
        List.find (qualifica_em (camada_de w) grupo2) (fields (camada_de w))
        = Some campo)
    /\ ((exists c, c ∈ fields (camada_de w)
                   /\ qualifica_em (camada_de w) grupo1 c = true) ->
        List.find (qualifica_em (camada_de w) grupo1) (fields (camada_de w))
        = Some campo).
Proof.
  intros Hk He HF HG HF2 HG4 HG1 HG2 _.
  rewrite (identificar_campo_filtro_editavel _ Hk He).
  assert (exists campo,
            primeiro_grupo (camada_de w) prioridades = Some (name campo)
            /\ campo ∈ fields (camada_de w)
            /\ (List.find (qualifica_em (camada_de w) grupo1)
                  (fields (camada_de w)) = Some campo
                \/ (primeiro (qualifica_em (camada_de w) grupo1)
                       (fields (camada_de w)) = None
                    /\ List.find (qualifica_em (camada_de w) grupo2)
                         (fields (camada_de w)) = Some campo)))
    as (campo & Hsel & Hin & Hfind).
  { cbn [primeiro_grupo prioridades].
    destruct (primeiro (qualifica_em (camada_de w) grupo1) (fields (camada_de w)))
      as [n|] eqn:H1.
    - apply primeiro_Some in H1 as (campo & Hin & <- & Hq & Hfind).
      exists campo. auto.
    - destruct (primeiro (qualifica_em (camada_de w) grupo2) (fields (camada_de w)))
        as [n|] eqn:H2.
      + apply primeiro_Some in H2 as (campo & Hin & <- & Hq & Hfind).
        exists campo. auto.
      + rewrite primeiro_None in H2. rewrite (H2 F HF) in HF2. done. }
  assert (qualifica_em (camada_de w) grupo1 campo = true
          \/ qualifica_em (camada_de w) grupo2 campo = true) as Hq.
  { destruct Hfind as [Hf|[_ Hf]]; apply find_some in Hf as [_ Hf]; auto. }
  exists campo. rewrite Hsel. split; [done|]. split; [done|]. split; [done|].
  split; [|split; [by intros Hunico; apply Hunico|split]].
  - intros Hname.
    assert (qualifica (camada_de w) (name G) = true) as HGq
      by by apply qualifica_em_qualifica with grupo4.
    assert (type G = QVariantInt) as HGt.
    { unfold qualifica_em in HG4. apply andb_prop in HG4 as [[_ Ht]%andb_prop _].
      apply tipo_valido_spec in Ht. cbn [tipos grupo4] in Ht.
      by apply list_elem_of_singleton in Ht. }
    assert (forall g, QVariantInt ∈ tipos g ->
              qualifica_em (camada_de w) g campo = true ->
              qualifica_em (camada_de w) g G = true) as Hmesmo.
    { intros g Hg. unfold qualifica_em.
      intros [[Hn _]%andb_prop _]%andb_prop.
      rewrite <- (nome_valido_name g campo G Hname), Hn, HGq.
      unfold tipo_valido. rewrite HGt. by rewrite bool_decide_eq_true_2. }
    destruct Hq as [Hq|Hq].
    + rewrite (Hmesmo grupo1) in HG1; [done| |done].
      cbn [tipos grupo1]. apply elem_of_cons. by left.
    + rewrite (Hmesmo grupo2) in HG2; [done| |done].
      cbn [tipos grupo2]. apply elem_of_cons. by left.
  - intros Hnenhum. destruct Hfind as [Hf|[_ Hf]]; [|done].
    apply find_some in Hf as [_ Hf]. by rewrite (Hnenhum campo Hin) in Hf.
  - intros (c & Hc & Hc1). destruct Hfind as [Hf|[Hnone _]]; [done|].
    rewrite primeiro_None in Hnone. by rewrite (Hnone c Hc) in Hc1.
Qed.

(** On [camada_area_cod], [area] comes first and qualifies only at tier 4;
    the selector answers [cod]. *)
Lemma tier2_preferido_a_tier4_witness :
  identificar_campo_filtro (mkMundo camada_area_cod [])
  = (Ret (Some "cod"), mkMundo camada_area_cod []).
Proof.
  assert (mkField "cod" QVariantInt ∈ fields camada_area_cod) as Hcod
    by (apply elem_of_cons; right; apply elem_of_cons; by left).
  assert (mkField "area" QVariantInt ∈ fields camada_area_cod) as Harea
    by (apply elem_of_cons; by left).
  destruct (tier2_preferido_a_tier4 (mkMundo camada_area_cod []) _ _
              eq_refl eq_refl Hcod Harea eq_refl eq_refl eq_refl eq_refl eq_refl)
    as (campo & Hsel & _ & _ & _ & Hunico & _).
  rewrite Hsel, Hunico; [reflexivity|].
  simpl. intros c [->|[->|[]%elem_of_nil]%elem_of_cons]%elem_of_cons [H|H];
    [discriminate H|discriminate H|reflexivity|reflexivity].
Defined.

(** C7, as stated, fails when a third field qualifies at tier 1: on
    [camada_area_cod_objectid] the field [cod] qualifies at tier 2 and
    [area] only at tier 4, and the selector answers neither but [objectid],
    a long integer whose name holds [id], found by the scan of tier 1. *)
Lemma tier2_preterido_por_tier1 :
  let camada := camada_area_cod_objectid in
  let F := mkField "cod" QVariantInt in
  let G := mkField "area" QVariantInt in
  kml_file_temporary (identificar_tipo_camada camada) = true
  /\ camada_editavel camada = true
  /\ F ∈ fields camada
  /\ G ∈ fields camada
  /\ qualifica_em camada grupo2 F = true
  /\ qualifica_em camada grupo4 G = true
  /\ qualifica_em camada grupo1 G = false
  /\ qualifica_em camada grupo2 G = false
  /\ qualifica_em camada grupo3 G = false
  /\ identificar_campo_filtro (mkMundo camada [])
     = (Ret (Some "objectid"), mkMundo camada [])
  /\ "objectid" <> name F.
Proof.
  cbn zeta. split; [reflexivity|]. split; [reflexivity|].
  split; [apply elem_of_cons; right; apply elem_of_cons; by left|].
  split; [apply elem_of_cons; by left|].
  repeat (split; [reflexivity|]). discriminate.
Qed.

(** ** The auxiliary field, as the caller sees it *)

Lemma com_campo_auxiliar_fields camada :
  fields (com_campo_auxiliar camada) = campos_com_auxiliar camada.
Proof.
  unfold com_campo_auxiliar, campos_com_auxiliar.
  destruct (str_in_list id_row_nr (names (fields camada))) eqn:Hin.
  - apply str_in_list_elem_of in Hin. by rewrite decide_True.
  - rewrite decide_False; [done|]. intros Hin'%str_in_list_elem_of. congruence.
Qed.

Lemma com_campo_auxiliar_fid camada :
  map fid (features (com_campo_auxiliar camada)) = map fid (features camada).
Proof.
  unfold com_campo_auxiliar.
  destruct (str_in_list id_row_nr (names (fields camada))); [done|].
  simpl. rewrite map_map. done.
Qed.

Lemma com_campo_auxiliar_coluna camada j :
  wf_layer camada -> (j < length (fields camada))%nat ->
  coluna j (features (com_campo_auxiliar camada)) = coluna j (features camada).
Proof.
  unfold com_campo_auxiliar, coluna. intros Hwf Hj.
  destruct (str_in_list id_row_nr (names (fields camada))); [done|].
  simpl. rewrite map_map. apply map_ext_Forall.
  eapply Forall_impl; [exact Hwf|]. simpl. intros feat Hlen.
  unfold attribute. simpl. rewrite lookup_app_l by lia. done.
Qed.

(** C6 (as the code has it): on a well-formed layer that passes the guard
    (editable and neither [wfs] nor [csv], as every editable [file], [kml] or
    [temporary] layer is) and accepts the edit session,
    [gerenciar_campo_auxiliar] returns [id_row_nr] and leaves a layer whose
    schema is the old one, with an integer field [id_row_nr] appended only
    when the name was missing; the attribute of that name reads 1, 2, ..., N
    in iteration order whatever it held before; record identifiers and the
    other attributes are as they were; and a second run changes nothing
    more. *)
Theorem gerenciar_campo_auxiliar_renumera (w : mundo) :
  wf_layer (camada_de w) ->
  aceita_campo_auxiliar (camada_de w) = true ->
  edit_ok (camada_de w) = true ->
  exists w' indice,
    gerenciar_campo_auxiliar w = (Ret (Some id_row_nr), w')
    /\ fields (camada_de w') = campos_com_auxiliar (camada_de w)
    /\ lookupField (fields (camada_de w')) id_row_nr = Some indice
    /\ coluna indice (features (camada_de w'))
       = map VInt (seqZ 1 (Z.of_nat (featureCount (camada_de w))))
    /\ map fid (features (camada_de w')) = map fid (features (camada_de w))
    /\ (forall j, (j < length (fields (camada_de w)))%nat -> j <> indice ->
          coluna j (features (camada_de w')) = coluna j (features (camada_de w)))
    /\ exists w'',
         gerenciar_campo_auxiliar w' = (Ret (Some id_row_nr), w'')
         /\ camada_de w'' = camada_de w'.
Proof.
  intros Hwf Hac Hok.
  destruct (com_campo_auxiliar_lookup (camada_de w)) as [indice Hidx].
  exists (mkMundo (campo_auxiliar_numerado (camada_de w))
            (eventos w ++ [EditSession])), indice.
  split; [by apply gerenciar_campo_auxiliar_ok|]. cbn [camada_de].
  rewrite campo_auxiliar_numerado_fields.
  split; [apply com_campo_auxiliar_fields|]. split; [done|].
  split; [apply campo_auxiliar_numerado_coluna;
            [done|by rewrite campo_auxiliar_numerado_fields]|].
  rewrite (campo_auxiliar_numerado_features _ _ Hidx).
  split; [by rewrite renumerar_fid, com_campo_auxiliar_fid|].
  split.
  - intros j Hj Hne. rewrite renumerar_coluna_ne by done.
    by apply com_campo_auxiliar_coluna.
  - eexists. split.
    + apply gerenciar_campo_auxiliar_ok; cbn [camada_de].
      * by rewrite aceita_campo_auxiliar_numerado.
      * by rewrite edit_ok_campo_auxiliar_numerado.
    + cbn [camada_de]. apply campo_auxiliar_numerado_idemp.
Qed.

(** On [camada_sem_aux] the field is created and reads 1, 2, 3. *)
Lemma gerenciar_campo_auxiliar_renumera_witness :
  exists w',
    gerenciar_campo_auxiliar (mkMundo camada_sem_aux [])
    = (Ret (Some id_row_nr), w')
    /\ fields (camada_de w')
       = [mkField "geom" QVariantOther; mkField id_row_nr QVariantInt]
    /\ coluna 1 (features (camada_de w')) = [VInt 1; VInt 2; VInt 3].
Proof.
  destruct (gerenciar_campo_auxiliar_renumera (mkMundo camada_sem_aux []))
    as (w' & indice & Hrun & Hfields & Hidx & Hcol & _).
  - repeat constructor.
  - reflexivity.
  - reflexivity.
  - exists w'. split; [exact Hrun|]. split; [exact Hfields|].
    rewrite Hfields in Hidx. injection Hidx as <-. exact Hcol.
Defined.

(** C6, as stated, fails when [id_row_nr] is already there with another
    type: the run on [camada_aux_texto] succeeds and the field is still a
    string field, in its old place, so the layer differs from what the run
    leaves of the same layer without the field. *)
Lemma gerenciar_campo_auxiliar_mantem_tipo :
  exists w' w'',
    gerenciar_campo_auxiliar (mkMundo camada_aux_texto [])
    = (Ret (Some id_row_nr), w')
    /\ field (camada_de w') id_row_nr = Ret (mkField id_row_nr QVariantString)
    /\ gerenciar_campo_auxiliar (mkMundo camada_sem_aux [])
       = (Ret (Some id_row_nr), w'')
    /\ field (camada_de w'') id_row_nr = Ret (mkField id_row_nr QVariantInt)
    /\ fields (camada_de w') <> fields (camada_de w'').
Proof.
  exists (mkMundo (campo_auxiliar_numerado camada_aux_texto) [EditSession]),
         (mkMundo (campo_auxiliar_numerado camada_sem_aux) [EditSession]).
  split; [reflexivity|]. split; [reflexivity|].
  split; [reflexivity|]. split; [reflexivity|]. discriminate.
Qed.

(** ** Runs of the filter *)

Section Filtro.

Implicit Types (w : mundo).

Lemma coletar_valores_Ret camada campo indice feats :
  lookupField (fields camada) campo = Some indice ->
  coletar_valores camada campo feats
  = Ret (map (fun feat => str (projetar camada campo feat)) feats).
Proof.
  intros Hidx. induction feats as [|feat resto IH]; [done|].
  simpl. unfold getitem, projetar. rewrite Hidx. simpl. rewrite IH.
  unfold projetar. by rewrite Hidx.
Qed.

Lemma field_Ret camada campo c :
  field camada campo = Ret c ->
  exists indice, lookupField (fields camada) campo = Some indice.
Proof.
  unfold field.
  destruct (indexFromName (fields camada) campo) as [indice|] eqn:Hidx; [|done].
  intros _. exists indice. by apply lookupField_indexFromName.
Qed.

(** The [try] block, step by step: the filter is cleared, the selector runs
    on the cleared layer, and what follows depends on its answer. *)
Lemma filtrar_try_run ids w :
  filtrar_try ids w
  = match identificar_campo_filtro (filtro_limpo w) with
    | (Ret campo, w1) =>
        if sem_campo campo then
          (Ret tt, mkMundo (camada_de w1) (eventos w1 ++ [msg_sem_campo]))
        else
          let nome := default "" campo in
          match coletar_valores (camada_de w1) nome
                  (getFeatures_fids (camada_de w1) ids) with
          | Ret valores =>
              match field (camada_de w1) nome with
              | Ret c =>
                  (Ret tt,
                   mkMundo
                     (with_subsetString (camada_de w1)
                        (expressao nome (type c) valores))
                     ((eventos w1
                         ++ [SetSubsetString (expressao nome (type c) valores)])
                        ++ [msg_sucesso (camada_de w1) nome (length valores)]))
              | Raise e => (Raise e, w1)
              end
          | Raise e => (Raise e, w1)
          end
    | (Raise e, w1) => (Raise e, w1)
    end.
Proof.
  unfold filtrar_try, setSubsetString, bind, get_camada, put_camada, emit.
  cbn [camada_de eventos]. fold (filtro_limpo w).
  destruct (identificar_campo_filtro (filtro_limpo w)) as [[campo|e] w1]; [|done].
  destruct (sem_campo campo); [done|].
  unfold lift.
  destruct (coletar_valores (camada_de w1) (default "" campo)
              (getFeatures_fids (camada_de w1) ids)) as [valores|e]; [|done].
  by destruct (field (camada_de w1) (default "" campo)) as [c|e].
Qed.

Lemma filtrar_protegido_run ids w :
  filtrar_protegido ids w
  = match filtrar_try ids w with
    | (Ret a, w') => (Ret a, w')
    | (Raise e, w') =>
        (Ret tt,
         mkMundo (camada_de w')
           ((eventos w'
               ++ [PushMessage QgisCritical 3
                     ("Error during filtering: " +:+ str_exn e)])
              ++ [LogMessage QgisCritical ("Erro detalhado: " +:+ str_exn e)]))
    end.
Proof.
  unfold filtrar_protegido, try_except.
  by destruct (filtrar_try ids w) as [[a|e] w'].
Qed.

(** The selector leaves the layer as it was or with the auxiliary field
    numbered, and only adds events. *)
Lemma identificar_campo_filtro_quadro w r w' :
  identificar_campo_filtro w = (r, w') ->
  (camada_de w' = camada_de w
   \/ camada_de w' = campo_auxiliar_numerado (camada_de w))
  /\ exists evs, eventos w' = eventos w ++ evs.
Proof.
  destruct (decide (identificar_tipo_camada (camada_de w) = Tdatabase)) as [Hdb|Hdb].
  - rewrite (identificar_campo_filtro_database _ Hdb), obter_chave_primaria_run.
    destruct (obter_chave_primaria_try (camada_de w)) as [pk|e];
      destruct (pk_serve_puro (camada_de w) _) as [[|]|e'];
      intros [= _ <-]; (split; [by left|]); cbn [eventos];
      first [by eexists | exists []; by rewrite app_nil_r].
  - destruct (aceita_campo_auxiliar (camada_de w)) eqn:Hac.
    + pose proof Hac as Hac'.
      unfold aceita_campo_auxiliar in Hac. apply andb_prop in Hac as [Ht He].
      destruct (kml_file_temporary (identificar_tipo_camada (camada_de w))) eqn:Hk.
      * rewrite (identificar_campo_filtro_editavel _ Hk He).
        destruct (primeiro_grupo (camada_de w) prioridades) as [n|].
        -- intros [= _ <-]. split; [by left|]. exists []. by rewrite app_nil_r.
        -- destruct (edit_ok (camada_de w)) eqn:Hok.
           ++ rewrite gerenciar_campo_auxiliar_ok by done.
              intros [= _ <-]. split; [by right|]. by eexists.
           ++ destruct (gerenciar_campo_auxiliar_falha _ Hac' Hok)
                as (c' & evs & -> & Hc').
              intros [= _ <-]. split; [done|]. by eexists.
      * rewrite identificar_campo_filtro_other; [|by destruct (identificar_tipo_camada (camada_de w))|done].
        intros [= _ <-]. split; [by left|]. exists []. by rewrite app_nil_r.
    + rewrite (identificar_campo_filtro_nao_editavel _ Hdb Hac).
      intros [= _ <-]. split; [by left|]. exists []. by rewrite app_nil_r.
Qed.

Lemma subsetString_campo_auxiliar_numerado camada :
  subsetString (campo_auxiliar_numerado camada) = subsetString camada.
Proof.
  unfold campo_auxiliar_numerado, com_campo_auxiliar.
  destruct (str_in_list id_row_nr (names (fields camada)));
    by destruct (lookupField _ id_row_nr).
Qed.

Lemma identificar_campo_filtro_subsetString w r w' :
  identificar_campo_filtro w = (r, w') ->
  subsetString (camada_de w') = subsetString (camada_de w).
Proof.
  intros [[->| ->] _]%identificar_campo_filtro_quadro; [done|].
  apply subsetString_campo_auxiliar_numerado.
Qed.

Lemma filtrar_try_estende ids : estende (filtrar_try ids).
Proof.
  intros w r w'. rewrite filtrar_try_run.
  destruct (identificar_campo_filtro (filtro_limpo w)) as [r1 w1] eqn:Hsel.
  apply identificar_campo_filtro_quadro in Hsel as [_ [evs Hevs]].
  cbn [filtro_limpo eventos] in Hevs.
  assert (forall resto, exists evs', (eventos w1 ++ resto) = eventos w ++ evs')
    as Hmais.
  { intros resto. rewrite Hevs, <- !app_assoc. by eexists. }
  assert (exists evs', eventos w1 = eventos w ++ evs') as Hw1.
  { destruct (Hmais []) as [evs' H]. rewrite app_nil_r in H. by exists evs'. }
  destruct r1 as [campo|e]; [|by intros [= _ <-]].
  destruct (sem_campo campo); [intros [= _ <-]; apply Hmais|].
  cbn zeta.
  destruct (coletar_valores _ _ _) as [valores|e]; [|by intros [= _ <-]].
  destruct (field _ _) as [c|e]; [|by intros [= _ <-]].
  intros [= _ <-]. cbn [eventos]. rewrite <- app_assoc. apply Hmais.
Qed.

Lemma filtrar_protegido_estende ids : estende (filtrar_protegido ids).
Proof.
  intros w r w'. rewrite filtrar_protegido_run.
  destruct (filtrar_try ids w) as [[a|e] w1] eqn:Htry;
    apply filtrar_try_estende in Htry as [evs Hevs].
  - intros [= _ <-]. by exists evs.
  - intros [= _ <-]. cbn [eventos]. rewrite Hevs, <- !app_assoc. by eexists.
Qed.

End Filtro.

(** ** The claims about the pipeline *)

(** C5 (as the code has it): when the selector, run on the layer with its
    filter cleared, answers a field whose declared type is neither string
    nor character (the numeric types among them), the run succeeds and sets
    the filter ["<campo>" IN (v1,v2,...)], where the values are those of the
    selected records as [str] prints them, unquoted, joined by commas, in the
    order in which the layer iterates those records; they are not sorted. *)
Theorem filtro_numerico_em_ordem_de_iteracao
    (ids : list Z) (w w1 : mundo) (campo : string) (c : QgsField) :
  identificar_campo_filtro (filtro_limpo w) = (Ret (Some campo), w1) ->
  campo <> "" ->
  field (camada_de w1) campo = Ret c ->
  type c ∉ [QVariantString; QVariantChar] ->
  exists w',
    filtrar_try ids w = (Ret tt, w')
    /\ subsetString (camada_de w')
       = String aspas campo +:+ String aspas " IN ("
           +:+ Py.join "," (valores_selecionados (camada_de w1) campo ids)
           +:+ ")".
Proof.
  intros Hsel Hne Hfield Htipo. rewrite filtrar_try_run, Hsel.
  cbn [sem_campo]. apply String.eqb_neq in Hne. rewrite Hne.
  change (default "" (Some campo)) with campo. cbn zeta iota beta.
  destruct (field_Ret _ _ _ Hfield) as [indice Hidx].
  rewrite (coletar_valores_Ret _ _ _ _ Hidx), Hfield.
  eexists. split; [reflexivity|]. cbn [camada_de subsetString with_subsetString].
  unfold expressao, valores_formatados, valores_selecionados.
  by rewrite bool_decide_eq_false_2.
Qed.

(** On [camada_area_cod] the records come in the order 30, 10, 20, and so
    do the values of the filter. *)
Lemma filtro_numerico_em_ordem_de_iteracao_witness :
  exists w',
    filtrar_try [1; 2; 3] (mkMundo camada_area_cod []) = (Ret tt, w')
    /\ subsetString (camada_de w') = filtro_cod "30,10,20".
Proof.
  destruct (filtro_numerico_em_ordem_de_iteracao [1; 2; 3]
              (mkMundo camada_area_cod [])
              (filtro_limpo (mkMundo camada_area_cod []))
              "cod" (mkField "cod" QVariantInt))
    as (w' & Hrun & Hsub).
  - reflexivity.
  - discriminate.
  - reflexivity.
  - rewrite !not_elem_of_cons. repeat split; try discriminate. apply not_elem_of_nil.
  - exists w'. split; [exact Hrun|]. rewrite Hsub. reflexivity.
Defined.

(** C5, as stated, fails: with the integer field [cod] holding 30, 10, 20 in
    iteration order and all three records selected, the filter the run sets
    lists [30,10,20], not the sorted [10,20,30]. *)
Lemma filtro_numerico_nao_ordenado :
  let r := executar_filtragem
             (mkIface (Some (VectorLayer camada_area_cod)) QMessageBoxYes) in
  option_map subsetString (fst r) = Some (filtro_cod "30,10,20")
  /\ option_map subsetString (fst r) <> Some (filtro_cod "10,20,30").
Proof. split; [reflexivity|discriminate]. Qed.

Lemma filtrar_run resposta w :
  selectedFeatureIds (camada_de w) <> [] ->
  let ids := selectedFeatureIds (camada_de w) in
  filtrar resposta w
  = if bool_decide (identificar_tipo_camada (camada_de w) = Twfs)
       && Nat.ltb 20 (length ids)
    then
      match resposta with
      | QMessageBoxNo =>
          (Ret tt,
           mkMundo (camada_de w)
             ((eventos w ++ [MessageBoxWarning (length ids)]) ++ [msg_cancelado]))
      | QMessageBoxYes =>
          filtrar_protegido ids
            (mkMundo (camada_de w) (eventos w ++ [MessageBoxWarning (length ids)]))
      end
    else filtrar_protegido ids w.
Proof.
  intros Hsel. cbn zeta. unfold filtrar, bind at 1, get_camada.
  destruct (selectedFeatureIds (camada_de w)) as [|i ids] eqn:Hids; [done|].
  destruct (bool_decide _ && _); [|done].
  unfold bind, emit. by destruct resposta.
Qed.

(** C8: on a valid [wfs] layer with more than 20 selected records the first
    event of the run is the warning box, before the filter is touched; if
    the user answers No, the run ends with the cancellation message, the
    layer exactly as it was (its subset string included) and no
    [setSubsetString] call at all. *)
Theorem aviso_wfs_antes_de_filtrar (iface : QgisInterface)
    (camada : QgsVectorLayer) :
  activeLayer iface = Some (VectorLayer camada) ->
  isValid camada = true ->
  identificar_tipo_camada camada = Twfs ->
  (20 < length (selectedFeatureIds camada))%nat ->
  let n := length (selectedFeatureIds camada) in
  (exists resto, snd (executar_filtragem iface) = MessageBoxWarning n :: resto)
  /\ (resposta iface = QMessageBoxNo ->
      executar_filtragem iface
      = (Some camada, [MessageBoxWarning n; msg_cancelado])).
Proof.
  intros Hativa Hvalida Hwfs Hn. cbn zeta.
  unfold executar_filtragem. rewrite Hativa, Hvalida.
  assert (selectedFeatureIds camada <> []) as Hsel
    by (destruct (selectedFeatureIds camada); [simpl in Hn; lia|done]).
  rewrite filtrar_run by done. cbn [camada_de eventos app].
  rewrite Hwfs, bool_decide_eq_true_2 by done.
  apply Nat.ltb_lt in Hn as Hn'. rewrite Hn'. cbn [andb].
  destruct (resposta iface) eqn:Hresp.
  - split; [|done].
    destruct (filtrar_protegido _ _) as [r w'] eqn:Hrun.
    apply filtrar_protegido_estende in Hrun as [evs Hevs].
    cbn [eventos] in Hevs. cbn [snd]. rewrite Hevs. by eexists.
  - split; [by eexists|done].
Qed.

(** On [camada_wfs], 21 records are selected; the user declines and the
    earlier filter stays. *)
Lemma aviso_wfs_antes_de_filtrar_witness :
  executar_filtragem (mkIface (Some (VectorLayer camada_wfs)) QMessageBoxNo)
  = (Some camada_wfs, [MessageBoxWarning 21; msg_cancelado]).
Proof.
  apply (aviso_wfs_antes_de_filtrar
           (mkIface (Some (VectorLayer camada_wfs)) QMessageBoxNo) camada_wfs);
    [reflexivity|reflexivity|reflexivity|vm_compute; lia|reflexivity].
Defined.

(** C10: on a run that passes the checks (valid vector layer, non-empty
    selection, and, on a [wfs] layer with more than 20 selected records, the
    user's Yes), the events start with the warning box, if it was shown,
    and then the call [setSubsetString('')]; the selector runs after that,
    on the layer with its filter cleared; and when it answers no field, the
    run ends with the failure message and a layer whose subset string is
    empty, whatever it was before. *)
Theorem filtro_limpo_antes_da_selecao (iface : QgisInterface)
    (camada : QgsVectorLayer) :
  activeLayer iface = Some (VectorLayer camada) ->
  isValid camada = true ->
  selectedFeatureIds camada <> [] ->
  (identificar_tipo_camada camada = Twfs ->
   (20 < length (selectedFeatureIds camada))%nat ->
   resposta iface = QMessageBoxYes) ->
  exists r w1,
    identificar_campo_filtro (filtro_limpo (mkMundo camada (aviso camada)))
    = (r, w1)
    /\ (exists resto,
          snd (executar_filtragem iface)
          = aviso camada ++ SetSubsetString "" :: resto)
    /\ subsetString (camada_de w1) = ""
    /\ (forall campo, r = Ret campo -> sem_campo campo = true ->
          executar_filtragem iface
          = (Some (camada_de w1), eventos w1 ++ [msg_sem_campo])).
Proof.
  intros Hativa Hvalida Hsel Hresp.
  unfold executar_filtragem. rewrite Hativa, Hvalida.
  rewrite filtrar_run by done. cbn [camada_de eventos app].
  assert ((if bool_decide (identificar_tipo_camada camada = Twfs)
              && Nat.ltb 20 (length (selectedFeatureIds camada))
           then match resposta iface with
                | QMessageBoxYes =>
                    filtrar_protegido (selectedFeatureIds camada)
                      (mkMundo camada
                         [MessageBoxWarning (length (selectedFeatureIds camada))])
                | QMessageBoxNo =>
                    (Ret tt,
                     mkMundo camada
                       [MessageBoxWarning (length (selectedFeatureIds camada));
                        msg_cancelado])
                end
           else filtrar_protegido (selectedFeatureIds camada) (mkMundo camada []))
          = filtrar_protegido (selectedFeatureIds camada)
              (mkMundo camada (aviso camada))) as ->.
  { unfold aviso. destruct (bool_decide _ && _) eqn:Hgrande; [|done].
    apply andb_prop in Hgrande as [Hwfs%bool_decide_eq_true Hn%Nat.ltb_lt].
    by rewrite (Hresp Hwfs Hn). }
  destruct (identificar_campo_filtro (filtro_limpo (mkMundo camada (aviso camada))))
    as [r w1] eqn:Hident.
  exists r, w1. split; [done|].
  pose proof (identificar_campo_filtro_subsetString _ _ _ Hident) as Hsub.
  pose proof (identificar_campo_filtro_quadro _ _ _ Hident) as [_ [evs Hevs]].
  cbn [filtro_limpo camada_de eventos subsetString with_subsetString] in Hsub, Hevs.
  rewrite filtrar_protegido_run, filtrar_try_run, Hident.
  split; [|split; [done|]].
  - rewrite <- app_assoc in Hevs. cbn [app] in Hevs.
    assert (forall resto, exists resto',
              eventos w1 ++ resto = aviso camada ++ SetSubsetString "" :: resto')
      as Hmais.
    { intros resto. rewrite Hevs, <- app_assoc. cbn [app]. by eexists. }
    destruct r as [campo|e]; cbn [snd eventos].
    + destruct (sem_campo campo); [apply Hmais|]. cbn zeta.
      destruct (coletar_valores _ _ _) as [valores|e].
      * destruct (field _ _) as [c|e]; cbn [snd eventos].
        -- rewrite <- app_assoc. apply Hmais.
        -- rewrite <- app_assoc. apply Hmais.
      * cbn [snd eventos]. rewrite <- app_assoc. apply Hmais.
    + rewrite <- app_assoc. apply Hmais.
  - intros campo -> Hsem. by rewrite Hsem.
Qed.

(** On [camada_sem_unico] no field qualifies: the run fails and the filter
    [zona IN (4)] it started with is gone. *)
Lemma filtro_limpo_antes_da_selecao_witness :
  let r := executar_filtragem
             (mkIface (Some (VectorLayer camada_sem_unico)) QMessageBoxYes) in
  option_map subsetString (fst r) = Some ""
  /\ snd r = [SetSubsetString ""; msg_sem_campo].
Proof.
  destruct (filtro_limpo_antes_da_selecao
              (mkIface (Some (VectorLayer camada_sem_unico)) QMessageBoxYes)
              camada_sem_unico)
    as (r & w1 & Hident & _ & Hsub & Hfalha).
  - reflexivity.
  - reflexivity.
  - discriminate.
  - discriminate.
  - vm_compute in Hident. injection Hident as <- <-.
    rewrite (Hfalha None eq_refl eq_refl). split; reflexivity.
Defined.

(** * Further properties of the plugin *)

(** ** What the selector's answer rests on *)

Lemma tem_nulo_spec camada nome_campo :
  tem_nulo camada nome_campo = true
  <-> exists feat, feat ∈ features camada /\ projetar camada nome_campo feat = VNone.
Proof.
  unfold tem_nulo. rewrite existsb_exists. split.
  - intros (feat & Hin & Hv%bool_decide_eq_true). exists feat.
    by rewrite list_elem_of_In.
  - intros (feat & Hin & Hv). exists feat. rewrite <- list_elem_of_In.
    by rewrite bool_decide_eq_true.
Qed.

Lemma possui_valores_nulos_loop_ausente camada feats nome_campo :
  lookupField (fields camada) nome_campo = None ->
  feats <> [] ->
  possui_valores_nulos_loop camada feats nome_campo = Raise (KeyError nome_campo).
Proof.
  intros Hidx Hne. destruct feats as [|feat resto]; [done|].
  simpl. unfold getitem. by rewrite Hidx.
Qed.

(** X1: for a name that [lookupField] finds in the schema
    [possui_valores_nulos] returns, and answers True exactly when some
    record holds [None] in that field; for a name it does not find it
    raises [KeyError] as soon as the layer has a record, and answers False
    on a layer without records. *)
Theorem possui_valores_nulos_correct (camada : QgsVectorLayer)
    (nome_campo : string) :
  (forall indice,
     lookupField (fields camada) nome_campo = Some indice ->
     exists b,
       possui_valores_nulos camada nome_campo = Ret b
       /\ (b = true
           <-> exists feat,
                 feat ∈ features camada /\ attribute feat indice = VNone))
  /\ (lookupField (fields camada) nome_campo = None ->
      features camada <> [] ->
      possui_valores_nulos camada nome_campo = Raise (KeyError nome_campo))
  /\ (features camada = [] ->
      possui_valores_nulos camada nome_campo = Ret false).
Proof.
  split; [|split].
  - intros indice Hidx. exists (tem_nulo camada nome_campo).
    split; [apply possui_valores_nulos_Ret; by eexists|].
    rewrite tem_nulo_spec. unfold projetar. by rewrite Hidx.
  - intros Hidx Hne. by apply possui_valores_nulos_loop_ausente.
  - unfold possui_valores_nulos. by intros ->.
Qed.

Lemma possui_valores_nulos_correct_witness :
  possui_valores_nulos camada_fid "gid" = Raise (KeyError "gid")
  /\ possui_valores_nulos camada_vazia "gid" = Ret false.
Proof.
  split.
  - apply (possui_valores_nulos_correct camada_fid "gid"); [reflexivity|discriminate].
  - apply (possui_valores_nulos_correct camada_vazia "gid"). reflexivity.
Defined.

(** The answer of the selector, without where its name comes from. *)
Lemma identificar_campo_filtro_Some w w' campo :
  identificar_campo_filtro w = (Ret (Some campo), w') ->
  (camada_de w' = camada_de w /\ qualifica (camada_de w) campo = true)
  \/ (camada_de w' = campo_auxiliar_numerado (camada_de w)
      /\ campo = id_row_nr
      /\ aceita_campo_auxiliar (camada_de w) = true
      /\ edit_ok (camada_de w) = true
      /\ primeiro_grupo (camada_de w) prioridades = None).
Proof.
  intros [(Hw & Hq & _)|H]%identificar_campo_filtro_origem; [by left|by right].
Qed.

Lemma campo_auxiliar_numerado_sem_nulos camada :
  wf_layer camada ->
  tem_nulo (campo_auxiliar_numerado camada) id_row_nr = false.
Proof.
  intros Hwf. apply not_true_is_false. rewrite tem_nulo_spec.
  intros (feat & Hin & Hv).
  destruct (com_campo_auxiliar_lookup camada) as [indice Hidx].
  rewrite <- campo_auxiliar_numerado_fields in Hidx.
  pose proof (campo_auxiliar_numerado_coluna _ _ Hwf Hidx) as Hcol.
  unfold projetar in Hv. rewrite Hidx in Hv.
  assert (attribute feat indice ∈ coluna indice (features (campo_auxiliar_numerado camada)))
    as Hmem by (unfold coluna; by apply (list_elem_of_fmap_2 (fun f => attribute f indice))).
  rewrite Hcol, Hv in Hmem.
  apply (list_elem_of_fmap_1 VInt) in Hmem as (z & Hz & _). done.
Qed.

(** X2: whenever [identificar_campo_filtro] returns a field name, the null
    scan answers False for it on the layer as the call leaves it: no record
    holds [None] in the chosen field.  The layer is taken well formed. *)
Theorem identificar_campo_filtro_sem_nulos (w w' : mundo) (campo : string) :
  wf_layer (camada_de w) ->
  identificar_campo_filtro w = (Ret (Some campo), w') ->
  possui_valores_nulos (camada_de w') campo = Ret false
  /\ forall feat, feat ∈ features (camada_de w') ->
       projetar (camada_de w') campo feat <> VNone.
Proof.
  intros Hwf Hsel.
  assert (qualifica (camada_de w') campo = true) as Hq.
  { apply identificar_campo_filtro_Some in Hsel
      as [[-> Hq]|(-> & -> & _)]; [done|].
    unfold qualifica. rewrite campo_auxiliar_numerado_unico by done.
    by rewrite campo_auxiliar_numerado_sem_nulos. }
  pose proof (qualifica_lookup _ _ Hq) as [Hin _].
  unfold qualifica in Hq. apply andb_prop in Hq as [_ Hnul%negb_true_iff].
  split.
  - rewrite possui_valores_nulos_Ret by done.
    by rewrite Hnul.
  - intros feat Hfeat Hv. apply not_true_iff_false in Hnul. apply Hnul.
    apply tem_nulo_spec. by exists feat.
Qed.

Lemma identificar_campo_filtro_sem_nulos_witness :
  possui_valores_nulos camada_fid "fid" = Ret false.
Proof.
  apply (identificar_campo_filtro_sem_nulos
           (mkMundo camada_fid []) (mkMundo camada_fid []) "fid").
  - repeat constructor.
  - vm_compute. reflexivity.
Defined.

(** ** The order of the scans *)

Lemma find_primeiro_que {A} (p : A -> bool) (l : list A) (x : A) :
  List.find p l = Some x ->
  exists antes depois,
    l = antes ++ x :: depois /\ p x = true
    /\ forall y, y ∈ antes -> p y = false.
Proof.
  induction l as [|a l IH]; [done|]. simpl.
  destruct (p a) eqn:Hpa.
  - intros [= <-]. exists [], l. split; [done|]. split; [done|].
    by intros y ?%elem_of_nil.
  - intros (antes & depois & -> & Hpx & Hantes)%IH.
    exists (a :: antes), depois. split; [done|]. split; [done|].
    intros y [->|Hy]%elem_of_cons; [done|by apply Hantes].
Qed.

(** X3: on a layer that is no database layer and is [wfs], [csv] or not
    editable, the selector answers the first field, in schema order, that
    passes both oracles, whatever its name and type, and nothing when no
    field passes; it touches neither the layer nor the trace. *)
Theorem ramo_sem_edicao_ordem_do_esquema (w : mundo) :
  identificar_tipo_camada (camada_de w) <> Tdatabase ->
  wfs_ou_csv (identificar_tipo_camada (camada_de w)) = true
  \/ camada_editavel (camada_de w) = false ->
  exists r,
    identificar_campo_filtro w = (Ret r, w)
    /\ match r with
       | Some nome_campo =>
           exists antes campo depois,
             fields (camada_de w) = antes ++ campo :: depois
             /\ name campo = nome_campo
             /\ qualifica (camada_de w) nome_campo = true
             /\ forall c, c ∈ antes -> qualifica (camada_de w) (name c) = false
       | None =>
           forall c, c ∈ fields (camada_de w) ->
             qualifica (camada_de w) (name c) = false
       end.
Proof.
  intros Hdb Hsem.
  assert (aceita_campo_auxiliar (camada_de w) = false) as Hac.
  { unfold aceita_campo_auxiliar. destruct Hsem as [-> | ->]; [done|].
    apply andb_false_r. }
  rewrite (identificar_campo_filtro_nao_editavel _ Hdb Hac).
  eexists. split; [reflexivity|].
  destruct (primeiro _ _) as [n|] eqn:Hp.
  - apply primeiro_Some in Hp as (campo & _ & <- & Hq & Hfind).
    apply find_primeiro_que in Hfind as (antes & depois & Hf & _ & Hantes).
    by exists antes, campo, depois.
  - exact (proj1 (primeiro_None _ _) Hp).
Qed.

Lemma ramo_sem_edicao_ordem_do_esquema_witness :
  identificar_campo_filtro (mkMundo camada_wfs [])
  = (Ret (Some "gml_id"), mkMundo camada_wfs []).
Proof.
  destruct (ramo_sem_edicao_ordem_do_esquema (mkMundo camada_wfs []))
    as (r & Hrun & Hr).
  - discriminate.
  - left. reflexivity.
  - rewrite Hrun. destruct r as [n|].
    + destruct Hr as (antes & campo & depois & Hf & <- & _ & _).
      destruct antes as [|a antes]; simpl in Hf.
      * by injection Hf as <- _.
      * injection Hf as _ Hf. by destruct antes.
    + exfalso.
      assert (mkField "gml_id" QVariantString ∈ fields camada_wfs) as Hin
        by (apply elem_of_cons; by left).
      specialize (Hr _ Hin). vm_compute in Hr. discriminate Hr.
Defined.

Lemma primeiro_grupo_primeiro camada grupos nome_campo :
  primeiro_grupo camada grupos = Some nome_campo ->
  exists antes g depois,
    grupos = antes ++ g :: depois
    /\ primeiro (qualifica_em camada g) (fields camada) = Some nome_campo
    /\ forall g', g' ∈ antes ->
         primeiro (qualifica_em camada g') (fields camada) = None.
Proof.
  induction grupos as [|g resto IH]; [done|]. simpl.
  destruct (primeiro (qualifica_em camada g) (fields camada)) as [n|] eqn:Hp.
  - intros [= <-]. exists [], g, resto. split; [done|]. split; [done|].
    by intros g' ?%elem_of_nil.
  - intros (antes & g0 & depois & -> & Hp0 & Hantes)%IH.
    exists (g :: antes), g0, depois. split; [done|]. split; [done|].
    intros g' [->|Hg']%elem_of_cons; [done|by apply Hantes].
Qed.

Lemma primeiro_grupo_None camada grupos :
  primeiro_grupo camada grupos = None
  <-> forall g c, g ∈ grupos -> c ∈ fields camada -> qualifica_em camada g c = false.
Proof.
  induction grupos as [|g resto IH]; simpl.
  - split; [|done]. by intros _ g c ?%elem_of_nil.
  - destruct (primeiro (qualifica_em camada g) (fields camada)) as [n|] eqn:Hp.
    + split; [done|]. intros Hall.
      apply primeiro_Some in Hp as (c & Hc & _ & Hq & _).
      rewrite (Hall g c) in Hq; [done| |done]. apply elem_of_cons. by left.
    + rewrite IH. rewrite primeiro_None in Hp. split.
      * intros Hall g' c [->|Hg']%elem_of_cons Hc; [by apply Hp|by apply Hall].
      * intros Hall g' c Hg' Hc. apply Hall; [|done]. apply elem_of_cons. by right.
Qed.

(** X4: on an editable [kml], [file] or [temporary] layer, when some field
    qualifies at some tier the selector answers the first field, in schema
    order, of the earliest tier at which any field qualifies, and leaves the
    layer alone; when no field qualifies at any tier it does exactly what
    [gerenciar_campo_auxiliar] does. *)
Theorem ramo_editavel_primeiro_do_primeiro_grupo (w : mundo) :
  kml_file_temporary (identificar_tipo_camada (camada_de w)) = true ->
  camada_editavel (camada_de w) = true ->
  ((exists g c, g ∈ prioridades /\ c ∈ fields (camada_de w)
                /\ qualifica_em (camada_de w) g c = true) ->
   exists grupos_antes g grupos_depois antes campo depois,
     identificar_campo_filtro w = (Ret (Some (name campo)), w)
     /\ prioridades = grupos_antes ++ g :: grupos_depois
     /\ fields (camada_de w) = antes ++ campo :: depois
     /\ qualifica_em (camada_de w) g campo = true
     /\ (forall c, c ∈ antes -> qualifica_em (camada_de w) g c = false)
     /\ (forall g' c, g' ∈ grupos_antes -> c ∈ fields (camada_de w) ->
           qualifica_em (camada_de w) g' c = false))
  /\ ((forall g c, g ∈ prioridades -> c ∈ fields (camada_de w) ->
         qualifica_em (camada_de w) g c = false) ->
      identificar_campo_filtro w = gerenciar_campo_auxiliar w).
Proof.
  intros Hk He. rewrite (identificar_campo_filtro_editavel _ Hk He). split.
  - intros (g & c & Hg & Hc & Hq).
    destruct (primeiro_grupo (camada_de w) prioridades) as [n|] eqn:Hpg.
    + apply primeiro_grupo_primeiro in Hpg
        as (grupos_antes & g0 & grupos_depois & Hgs & Hp & Hantes).
      apply primeiro_Some in Hp as (campo & _ & <- & Hq0 & Hfind).
      apply find_primeiro_que in Hfind as (antes & depois & Hf & _ & Hpre).
      exists grupos_antes, g0, grupos_depois, antes, campo, depois.
      split; [done|]. split; [done|]. split; [done|]. split; [done|].
      split; [done|]. intros g' c' Hg' Hc'.
      specialize (Hantes g' Hg'). rewrite primeiro_None in Hantes.
      by apply Hantes.
    + rewrite primeiro_grupo_None in Hpg. by rewrite (Hpg g c) in Hq.
  - intros Hall. apply primeiro_grupo_None in Hall. by rewrite Hall.
Qed.

Lemma ramo_editavel_primeiro_do_primeiro_grupo_witness :
  identificar_campo_filtro (mkMundo camada_sem_aux [])
  = gerenciar_campo_auxiliar (mkMundo camada_sem_aux []).
Proof.
  apply (proj2 (ramo_editavel_primeiro_do_primeiro_grupo
                  (mkMundo camada_sem_aux []) eq_refl eq_refl)).
  intros g c Hg Hc. simpl in Hc.
  apply elem_of_cons in Hc as [->|[]%elem_of_nil].
  unfold prioridades in Hg. rewrite !elem_of_cons, elem_of_nil in Hg.
  destruct Hg as [->|[->|[->|[->|[->|[]]]]]]; reflexivity.
Defined.

(** ** Whole runs *)

Section Corridas.

Implicit Types (w : mundo) (camada : QgsVectorLayer).

(** A run that reaches the [try] block is the protected block run after
    the warning, if any. *)
Lemma executar_filtragem_run iface camada :
  chega_ao_try iface camada ->
  executar_filtragem iface
  = let w := snd (filtrar_protegido (selectedFeatureIds camada)
                    (mkMundo camada (aviso camada))) in
    (Some (camada_de w), eventos w).
Proof.
  intros (Hativa & Hvalida & Hsel & Hresp).
  unfold executar_filtragem. rewrite Hativa, Hvalida.
  rewrite filtrar_run by done. cbn [camada_de eventos app].
  revert Hresp. unfold aviso.
  destruct (bool_decide _ && _); [|done].
  intros Hresp. by rewrite Hresp.
Qed.

Lemma identificar_tipo_camada_filtro camada s :
  identificar_tipo_camada (with_subsetString camada s)
  = identificar_tipo_camada camada.
Proof. done. Qed.

Lemma campo_auxiliar_numerado_filtro camada a s :
  with_subsetString (campo_auxiliar_numerado (with_subsetString camada a)) s
  = with_subsetString (campo_auxiliar_numerado camada) s.
Proof.
  unfold campo_auxiliar_numerado, com_campo_auxiliar.
  cbn [fields with_subsetString].
  destruct (str_in_list id_row_nr (names (fields camada)));
    by destruct (lookupField _ id_row_nr).
Qed.

(** What a protected block can leave of the layer: the layer itself or
    the layer with its auxiliary field numbered, under some filter. *)
Lemma filtrar_protegido_camada ids w r w' :
  filtrar_protegido ids w = (r, w') ->
  exists s,
    camada_de w' = with_subsetString (camada_de w) s
    \/ camada_de w' = with_subsetString (campo_auxiliar_numerado (camada_de w)) s.
Proof.
  rewrite filtrar_protegido_run, filtrar_try_run.
  destruct (identificar_campo_filtro (filtro_limpo w)) as [r1 w1] eqn:Hsel.
  pose proof (identificar_campo_filtro_subsetString _ _ _ Hsel) as Hsub.
  apply identificar_campo_filtro_quadro in Hsel as [Hcam _].
  cbn [filtro_limpo camada_de subsetString with_subsetString] in Hcam, Hsub.
  assert (forall s,
            with_subsetString (camada_de w1) s = with_subsetString (camada_de w) s
            \/ with_subsetString (camada_de w1) s
               = with_subsetString (campo_auxiliar_numerado (camada_de w)) s)
    as Hbase.
  { intros s. destruct Hcam as [-> | ->]; [by left|right].
    apply campo_auxiliar_numerado_filtro. }
  assert (camada_de w1 = with_subsetString (camada_de w1) "") as Hw1.
  { rewrite <- Hsub. by destruct (camada_de w1). }
  assert (exists s,
            camada_de w1 = with_subsetString (camada_de w) s
            \/ camada_de w1
               = with_subsetString (campo_auxiliar_numerado (camada_de w)) s)
    as Hfica by (exists ""; rewrite Hw1; apply Hbase).
  destruct r1 as [campo|e]; [|by intros [= _ <-]].
  destruct (sem_campo campo); [by intros [= _ <-]|]. cbn zeta.
  destruct (coletar_valores _ _ _) as [valores|e]; [|by intros [= _ <-]].
  destruct (field _ _) as [c|e]; [|by intros [= _ <-]].
  intros [= _ <-]. cbn [camada_de]. eexists. apply Hbase.
Qed.

End Corridas.

(** ** Runs that do no filtering *)

(** X5: without a valid active vector layer the run shows the message
    "Select a valid vector layer" and nothing else; on a valid layer with
    nothing selected it shows "No features selected" and leaves the layer,
    its subset filter included, as it was. *)
Theorem executar_filtragem_sem_trabalho (iface : QgisInterface) :
  (match activeLayer iface with
   | Some (VectorLayer camada) => isValid camada = false
   | _ => True
   end ->
   snd (executar_filtragem iface) = [msg_camada_invalida]
   /\ fst (executar_filtragem iface)
      = match activeLayer iface with
        | Some (VectorLayer camada) => Some camada
        | _ => None
        end)
  /\ (forall camada,
        activeLayer iface = Some (VectorLayer camada) ->
        isValid camada = true ->
        selectedFeatureIds camada = [] ->
        executar_filtragem iface = (Some camada, [msg_sem_selecao])).
Proof.
  unfold executar_filtragem. split.
  - destruct (activeLayer iface) as [[|camada]|]; [done| |done].
    by intros ->.
  - intros camada -> -> Hsel.
    unfold filtrar, bind, get_camada, exibir_mensagem, emit.
    cbn [camada_de eventos]. by rewrite Hsel.
Qed.

Lemma executar_filtragem_sem_trabalho_witness :
  executar_filtragem (mkIface (Some (VectorLayer camada_vazia)) QMessageBoxYes)
  = (Some camada_vazia, [msg_sem_selecao]).
Proof.
  apply (proj2 (executar_filtragem_sem_trabalho
                  (mkIface (Some (VectorLayer camada_vazia)) QMessageBoxYes)));
    reflexivity.
Defined.

(** X6: on a valid editable layer that the classifier calls [other] (a
    GeoJSON file opened through OGR, say) every run with a non-empty
    selection ends with "No field with unique values found", whatever the
    fields hold, and with the layer's filter cleared. *)
Theorem camada_other_editavel_sem_campo (iface : QgisInterface)
    (camada : QgsVectorLayer) :
  activeLayer iface = Some (VectorLayer camada) ->
  isValid camada = true ->
  selectedFeatureIds camada <> [] ->
  identificar_tipo_camada camada = Tother ->
  camada_editavel camada = true ->
  executar_filtragem iface
  = (Some (with_subsetString camada ""), [SetSubsetString ""; msg_sem_campo]).
Proof.
  intros Hativa Hvalida Hsel Hother Hedit.
  assert (aviso camada = []) as Haviso by (unfold aviso; by rewrite Hother).
  rewrite (executar_filtragem_run iface camada).
  - rewrite Haviso, filtrar_protegido_run, filtrar_try_run.
    rewrite identificar_campo_filtro_other; [done| |done].
    cbn [filtro_limpo camada_de]. by rewrite identificar_tipo_camada_filtro.
  - split; [done|]. split; [done|]. split; [done|]. by rewrite Haviso.
Qed.

Lemma camada_other_editavel_sem_campo_witness :
  executar_filtragem (mkIface (Some (VectorLayer camada_geojson)) QMessageBoxYes)
  = (Some (with_subsetString camada_geojson ""),
     [SetSubsetString ""; msg_sem_campo]).
Proof.
  apply (camada_other_editavel_sem_campo
           (mkIface (Some (VectorLayer camada_geojson)) QMessageBoxYes));
    [reflexivity|reflexivity|discriminate|reflexivity|reflexivity].
Defined.

(** X7: [gerenciar_campo_auxiliar] never raises.  It returns [None] exactly
    when its guard refuses the layer ([wfs], [csv] or not editable) or the
    edit session fails, and [id_row_nr] otherwise.  A refusal leaves the
    whole state untouched.  A session that does not open leaves the layer
    untouched and shows one critical message.  A session whose commit is
    refused shows the commit errors, and by then its body has run: the layer
    has the field [id_row_nr], which the provider added outside the edit
    buffer, and iterates the new numbers, pending in that buffer. *)
Theorem gerenciar_campo_auxiliar_None (w : mundo) :
  exists r w',
    gerenciar_campo_auxiliar w = (Ret r, w')
    /\ (r = None
        <-> aceita_campo_auxiliar (camada_de w) = false
            \/ startEditing (camada_de w) = false
            \/ commitChanges (camada_de w) = false)
    /\ (r <> None -> r = Some id_row_nr)
    /\ (aceita_campo_auxiliar (camada_de w) = false -> w' = w)
    /\ (aceita_campo_auxiliar (camada_de w) = true ->
        startEditing (camada_de w) = false ->
        w' = mkMundo (camada_de w) (eventos w ++ [msg_falha_auxiliar ""]))
    /\ (aceita_campo_auxiliar (camada_de w) = true ->
        startEditing (camada_de w) = true ->
        commitChanges (camada_de w) = false ->
        w' = mkMundo (campo_auxiliar_numerado (camada_de w))
               (eventos w
                  ++ [EditSession;
                      msg_falha_auxiliar (commitErrors (camada_de w))])
        /\ fields (camada_de w') = campos_com_auxiliar (camada_de w)).
Proof.
  destruct (aceita_campo_auxiliar (camada_de w)) eqn:Hac.
  - rewrite gerenciar_campo_auxiliar_run by done.
    destruct (startEditing (camada_de w)) eqn:Hstart.
    + destruct (commitChanges (camada_de w)) eqn:Hcommit.
      * eexists _, _. split; [done|]. split; [|done].
        split; [done|]. by intros [?|[?|?]].
      * eexists _, _. split; [done|]. split; [split; auto|].
        split; [done|]. split; [done|]. split; [done|].
        intros _ _ _. rewrite <- app_assoc. split; [done|].
        cbn [camada_de].
        by rewrite campo_auxiliar_numerado_fields, com_campo_auxiliar_fields.
    + eexists _, _. split; [done|]. split; [split; auto|done].
  - eexists _, _. split; [by apply gerenciar_campo_auxiliar_recusa|].
    split; [split; auto|done].
Qed.

(** On [camada_commit_falha] the commit is refused: nothing is returned
    and the field stays. *)
Lemma gerenciar_campo_auxiliar_None_witness :
  exists w',
    gerenciar_campo_auxiliar (mkMundo camada_commit_falha []) = (Ret None, w')
    /\ fields (camada_de w')
       = [mkField "geom" QVariantOther; mkField id_row_nr QVariantInt]
    /\ eventos w' = [EditSession; msg_falha_auxiliar "['disk full']"].
Proof.
  destruct (gerenciar_campo_auxiliar_None (mkMundo camada_commit_falha []))
    as (r & w' & Hrun & Hnone & _ & _ & _ & Hcommit).
  destruct (Hcommit eq_refl eq_refl eq_refl) as [Hw' Hf].
  exists w'. rewrite Hrun, Hf.
  rewrite (proj2 Hnone (or_intror (or_intror eq_refl))).
  split; [reflexivity|]. split; [reflexivity|]. by rewrite Hw'.
Defined.

(** ** Runs that reach the filter *)

(** X8: when the selector, run on the layer with its filter cleared,
    answers a field of string or character type, the run sets the filter
    ["<campo>" IN ('v1','v2',...)]: each value of the selected records, in
    iteration order, between single quotes and otherwise as it is (a quote
    inside a value is not escaped), joined by commas. *)
Theorem filtro_texto_entre_aspas
    (ids : list Z) (w w1 : mundo) (campo : string) (c : QgsField) :
  identificar_campo_filtro (filtro_limpo w) = (Ret (Some campo), w1) ->
  campo <> "" ->
  field (camada_de w1) campo = Ret c ->
  type c ∈ [QVariantString; QVariantChar] ->
  exists w',
    filtrar_try ids w = (Ret tt, w')
    /\ subsetString (camada_de w')
       = String aspas campo +:+ String aspas " IN ("
           +:+ Py.join ","
                 (map (fun v => "'" +:+ v +:+ "'")
                      (valores_selecionados (camada_de w1) campo ids))
           +:+ ")".
Proof.
  intros Hsel Hne Hfield Htipo. rewrite filtrar_try_run, Hsel.
  cbn [sem_campo]. apply String.eqb_neq in Hne. rewrite Hne.
  change (default "" (Some campo)) with campo. cbn zeta iota beta.
  destruct (field_Ret _ _ _ Hfield) as [indice Hidx].
  rewrite (coletar_valores_Ret _ _ _ _ Hidx), Hfield.
  eexists. split; [reflexivity|]. cbn [camada_de subsetString with_subsetString].
  unfold expressao, valores_formatados, valores_selecionados.
  by rewrite bool_decide_eq_true_2.
Qed.

Lemma filtro_texto_entre_aspas_witness :
  exists w',
    filtrar_try [1; 2] (mkMundo camada_nomes []) = (Ret tt, w')
    /\ subsetString (camada_de w')
       = String aspas "nome" +:+ String aspas " IN ('A','B's')".
Proof.
  destruct (filtro_texto_entre_aspas [1; 2]
              (mkMundo camada_nomes [])
              (filtro_limpo (mkMundo camada_nomes []))
              "nome" (mkField "nome" QVariantString))
    as (w' & Hrun & Hsub).
  - reflexivity.
  - discriminate.
  - reflexivity.
  - apply elem_of_cons. by left.
  - exists w'. split; [exact Hrun|]. rewrite Hsub. reflexivity.
Defined.

Lemma gerenciar_campo_auxiliar_Ret w :
  exists r w', gerenciar_campo_auxiliar w = (Ret r, w').
Proof.
  destruct (aceita_campo_auxiliar (camada_de w)) eqn:Hac.
  - destruct (edit_ok (camada_de w)) eqn:Hok.
    + eexists _, _. by apply gerenciar_campo_auxiliar_ok.
    + destruct (gerenciar_campo_auxiliar_falha _ Hac Hok) as (c' & evs & -> & _).
      by eexists _, _.
  - eexists _, _. by apply gerenciar_campo_auxiliar_recusa.
Qed.

(** X10: when the selector raises inside the [try] block of a run, the run
    ends with the error message and the log record of the [except] clause;
    the layer is as it was but for its subset filter, which stays empty. *)
Theorem excecao_no_try_deixa_filtro_vazio (iface : QgisInterface)
    (camada : QgsVectorLayer) (e : exn) (w1 : mundo) :
  chega_ao_try iface camada ->
  identificar_campo_filtro (filtro_limpo (mkMundo camada (aviso camada)))
  = (Raise e, w1) ->
  executar_filtragem iface
  = (Some (with_subsetString camada ""),
     aviso camada ++ [SetSubsetString ""] ++ msgs_erro e).
Proof.
  intros Hchega Hsel.
  rewrite (executar_filtragem_run _ _ Hchega).
  rewrite filtrar_protegido_run, filtrar_try_run, Hsel. cbn [snd camada_de eventos].
  revert Hsel. destruct (decide (identificar_tipo_camada camada = Tdatabase)) as [Hdb|Hdb].
  - rewrite identificar_campo_filtro_database by done.
    rewrite obter_chave_primaria_run. cbn [filtro_limpo camada_de eventos].
    destruct (obter_chave_primaria_try _) as [pk|e0]; [|done].
    destruct (pk_serve_puro _ _) as [[|]|e1]; intros [= <- <-].
    cbn [filtro_limpo camada_de eventos]. by rewrite <- !app_assoc.
  - destruct (aceita_campo_auxiliar camada) eqn:Hac.
    + pose proof Hac as Hac'. unfold aceita_campo_auxiliar in Hac.
      apply andb_prop in Hac as [Ht He].
      destruct (kml_file_temporary (identificar_tipo_camada camada)) eqn:Hk.
      * rewrite identificar_campo_filtro_editavel by done.
        destruct (primeiro_grupo _ _); [done|].
        by destruct (gerenciar_campo_auxiliar_Ret
                       (filtro_limpo (mkMundo camada (aviso camada))))
          as (r & w0 & ->).
      * rewrite identificar_campo_filtro_other; [done| |done].
        cbn [filtro_limpo camada_de]. rewrite identificar_tipo_camada_filtro.
        by destruct (identificar_tipo_camada camada).
    + by rewrite identificar_campo_filtro_nao_editavel.
Qed.

Lemma excecao_no_try_deixa_filtro_vazio_witness :
  executar_filtragem (mkIface (Some (VectorLayer camada_pg_numero)) QMessageBoxYes)
  = (Some (with_subsetString camada_pg_numero ""),
     [SetSubsetString ""] ++ msgs_erro TypeError).
Proof.
  apply (excecao_no_try_deixa_filtro_vazio
           (mkIface (Some (VectorLayer camada_pg_numero)) QMessageBoxYes)
           camada_pg_numero TypeError
           (filtro_limpo (mkMundo camada_pg_numero []))).
  - split; [reflexivity|]. split; [reflexivity|]. split; [discriminate|done].
  - reflexivity.
Defined.

(** ** What every run keeps *)

Section Conserva.

Implicit Types (w : mundo) (camada : QgsVectorLayer).

(** [fields().field(nome)] answers for the names of the schema and for
    nothing else. *)
Lemma field_names camada campo :
  campo ∈ names (fields camada) ->
  exists c, field camada campo = Ret c /\ c ∈ fields camada /\ name c = campo.
Proof.
  intros [indice Hidx]%indexFromName_names.
  destruct (indexFromName_name _ _ _ Hidx) as (c & Hc & Hn).
  exists c. unfold field. rewrite Hidx. unfold index. rewrite Hc.
  split; [done|]. split; [|done]. apply list_elem_of_lookup. by exists indice.
Qed.

Lemma field_KeyError camada campo :
  campo ∉ names (fields camada) -> field camada campo = Raise (KeyError campo).
Proof.
  intros Hnin. unfold field.
  destruct (indexFromName (fields camada) campo) as [indice|] eqn:Hidx; [|done].
  exfalso. apply Hnin, indexFromName_names. by eexists.
Qed.

Lemma getFeatures_fids_length camada ids :
  (length (getFeatures_fids camada ids) <= featureCount camada)%nat.
Proof. apply length_filter. Qed.

Lemma campo_auxiliar_numerado_featureCount camada :
  featureCount (campo_auxiliar_numerado camada) = featureCount camada.
Proof.
  unfold featureCount.
  destruct (com_campo_auxiliar_lookup camada) as [indice Hidx].
  rewrite (campo_auxiliar_numerado_features _ _ Hidx).
  by rewrite renumerar_length, com_campo_auxiliar_length.
Qed.

(** X11: once the selector has answered a non-empty name, what is left of
    the run turns on whether that name is a field name of the schema.  If it
    is, as it always is outside the database branch, nothing after it fails:
    the filter is set to the expression over that field's values for the
    selected records and the success message reports how many values there
    are, at most as many as the layer has records.  If it is not, the layer
    is a database layer and the name is its key as the catalogue spelled it,
    which [lookupField] matched without regard to case or by alias: the
    values are read, then [fields().field()] knows no such name and raises
    [KeyError], and the run ends with the error message, the filter
    cleared. *)
Theorem campo_escolhido_filtra_ou_KeyError (iface : QgisInterface)
    (camada : QgsVectorLayer) (campo : string) (w1 : mundo) :
  chega_ao_try iface camada ->
  identificar_campo_filtro (filtro_limpo (mkMundo camada (aviso camada)))
  = (Ret (Some campo), w1) ->
  campo <> "" ->
  (campo ∈ names (fields (camada_de w1)) ->
   exists c,
     c ∈ fields (camada_de w1) /\ name c = campo
     /\ let valores :=
          valores_selecionados (camada_de w1) campo (selectedFeatureIds camada) in
        let filtro := expressao campo (type c) valores in
        executar_filtragem iface
        = (Some (with_subsetString (camada_de w1) filtro),
           eventos w1
             ++ [SetSubsetString filtro;
                 msg_sucesso (camada_de w1) campo (length valores)])
        /\ (length valores <= featureCount camada)%nat)
  /\ (campo ∉ names (fields (camada_de w1)) ->
      identificar_tipo_camada camada = Tdatabase
      /\ obter_chave_primaria_try camada = Ret (VStr campo)
      /\ executar_filtragem iface
         = (Some (with_subsetString camada ""),
            aviso camada ++ [SetSubsetString ""] ++ msgs_erro (KeyError campo)))
  /\ (identificar_tipo_camada camada <> Tdatabase ->
      campo ∈ names (fields (camada_de w1))).
Proof.
  intros Hchega Hsel Hne.
  set (w0 := filtro_limpo (mkMundo camada (aviso camada))) in *.
  assert (is_Some (lookupField (fields (camada_de w1)) campo)) as [indice Hidx].
  { apply identificar_campo_filtro_origem in Hsel as Hor.
    destruct Hor as [(-> & Hq & _)|(-> & -> & _)].
    - by apply qualifica_lookup in Hq as [? _].
    - apply lookupField_names. rewrite campo_auxiliar_numerado_fields.
      apply com_campo_auxiliar_names. }
  assert (campo ∉ names (fields (camada_de w1)) ->
          identificar_tipo_camada camada = Tdatabase
          /\ obter_chave_primaria_try camada = Ret (VStr campo)) as Hfora.
  { intros Hnin. apply identificar_campo_filtro_origem in Hsel as Hor.
    destruct Hor as [(Hw1 & _ & [Hin|Hpk])|(Hw1 & -> & _)].
    - by rewrite Hw1 in Hnin.
    - exact Hpk.
    - exfalso. apply Hnin. rewrite Hw1, campo_auxiliar_numerado_fields.
      apply com_campo_auxiliar_names. }
  apply String.eqb_neq in Hne.
  split; [|split].
  - intros Hin. destruct (field_names _ _ Hin) as (c & Hfield & Hc & Hn).
    exists c. split; [done|]. split; [done|]. cbn zeta.
    rewrite (executar_filtragem_run _ _ Hchega).
    rewrite filtrar_protegido_run, filtrar_try_run. fold w0. rewrite Hsel.
    cbn [sem_campo]. rewrite Hne.
    change (default "" (Some campo)) with campo. cbn zeta iota beta.
    rewrite (coletar_valores_Ret _ _ _ _ Hidx), Hfield. cbn [snd camada_de eventos].
    split.
    + unfold valores_selecionados. by rewrite <- app_assoc.
    + unfold valores_selecionados. rewrite length_map.
      etrans; [apply getFeatures_fids_length|].
      apply identificar_campo_filtro_quadro in Hsel as [[-> | ->] _];
        rewrite ?campo_auxiliar_numerado_featureCount; done.
  - intros Hnin. destruct (Hfora Hnin) as [Hdb Hpk]. split; [done|]. split; [done|].
    assert (w1 = w0) as ->.
    { revert Hsel. rewrite identificar_campo_filtro_database by done.
      rewrite obter_chave_primaria_run.
      change (obter_chave_primaria_try (camada_de w0))
        with (obter_chave_primaria_try camada).
      rewrite Hpk. cbn [pk_serve_puro].
      destruct (negb (String.eqb campo "") && qualifica (camada_de w0) campo);
        intros H; apply (f_equal snd) in H; by symmetry. }
    rewrite (executar_filtragem_run _ _ Hchega).
    rewrite filtrar_protegido_run, filtrar_try_run. fold w0. rewrite Hsel.
    cbn [sem_campo]. rewrite Hne.
    change (default "" (Some campo)) with campo. cbn zeta iota beta.
    rewrite (coletar_valores_Ret _ _ _ _ Hidx), (field_KeyError _ _ Hnin).
    cbn [snd camada_de eventos w0 filtro_limpo]. unfold msgs_erro.
    by rewrite <- !app_assoc.
  - intros Hdb. destruct (decide (campo ∈ names (fields (camada_de w1))))
      as [Hin|Hnin]; [done|].
    by destruct (Hfora Hnin).
Qed.

(** On [camada_pg_caixa] the key [GID] passes both oracles and the run
    ends with [KeyError]. *)
Lemma campo_escolhido_filtra_ou_KeyError_witness :
  executar_filtragem (mkIface (Some (VectorLayer camada_pg_caixa)) QMessageBoxYes)
  = (Some camada_pg_caixa,
     [SetSubsetString "";
      PushMessage QgisCritical 3 "Error during filtering: 'GID'";
      LogMessage QgisCritical "Erro detalhado: 'GID'"]).
Proof.
  destruct (campo_escolhido_filtra_ou_KeyError
              (mkIface (Some (VectorLayer camada_pg_caixa)) QMessageBoxYes)
              camada_pg_caixa "GID"
              (filtro_limpo (mkMundo camada_pg_caixa [])))
    as (_ & Hfora & _).
  - split; [reflexivity|]. split; [reflexivity|]. split; [discriminate|done].
  - reflexivity.
  - discriminate.
  - destruct Hfora as (_ & _ & Hrun).
    + simpl. rewrite !not_elem_of_cons. repeat split; try discriminate.
      apply not_elem_of_nil.
    + rewrite Hrun. reflexivity.
Defined.

Lemma executar_filtragem_final iface camada :
  activeLayer iface = Some (VectorLayer camada) ->
  exists final,
    fst (executar_filtragem iface) = Some final
    /\ (final = camada
        \/ exists s,
             final = with_subsetString camada s
             \/ final = with_subsetString (campo_auxiliar_numerado camada) s).
Proof.
  intros Hativa. unfold executar_filtragem. rewrite Hativa.
  destruct (isValid camada); [|exists camada; split; [done|by left]].
  destruct (selectedFeatureIds camada) as [|i ids] eqn:Hids.
  { exists camada. split; [|by left].
    unfold filtrar, bind, get_camada. cbn [camada_de]. by rewrite Hids. }
  rewrite filtrar_run by (cbn [camada_de]; by rewrite Hids).
  cbn [camada_de eventos]. rewrite Hids.
  assert (forall evs,
            exists final,
              fst (let w := snd (filtrar_protegido (i :: ids) (mkMundo camada evs)) in
                   (Some (camada_de w), eventos w)) = Some final
              /\ (final = camada
                  \/ exists s,
                       final = with_subsetString camada s
                       \/ final = with_subsetString (campo_auxiliar_numerado camada) s))
    as Hprot.
  { intros evs.
    destruct (filtrar_protegido (i :: ids) (mkMundo camada evs)) as [r w'] eqn:Hrun.
    apply filtrar_protegido_camada in Hrun as [s Hs]. cbn [camada_de] in Hs.
    exists (camada_de w'). split; [done|]. right. by exists s. }
  destruct (bool_decide _ && _); [|apply Hprot].
  destruct (resposta iface); [apply Hprot|].
  exists camada. split; [done|by left].
Qed.

Lemma lookupField_com_campo_auxiliar camada nome_campo :
  nome_campo ∈ names (fields camada) ->
  lookupField (fields (com_campo_auxiliar camada)) nome_campo
  = lookupField (fields camada) nome_campo.
Proof.
  intros Hin. unfold com_campo_auxiliar.
  destruct (str_in_list id_row_nr (names (fields camada))); [done|].
  by apply lookupField_app_l.
Qed.

Lemma com_campo_auxiliar_names_l camada nome_campo :
  nome_campo ∈ names (fields camada) ->
  nome_campo ∈ names (fields (com_campo_auxiliar camada)).
Proof.
  intros Hin. unfold com_campo_auxiliar.
  destruct (str_in_list id_row_nr (names (fields camada))); [done|].
  simpl. unfold names. rewrite map_app. apply elem_of_app. by left.
Qed.

(** The attributes of the other fields survive the numbering. *)
Lemma campo_auxiliar_numerado_projetar camada nome_campo :
  wf_layer camada ->
  nome_campo <> id_row_nr ->
  nome_campo ∈ names (fields camada) ->
  map (projetar (campo_auxiliar_numerado camada) nome_campo)
      (features (campo_auxiliar_numerado camada))
  = map (projetar camada nome_campo) (features camada).
Proof.
  intros Hwf Hne Hin. destruct (lookupField_names _ _ Hin) as [j Hj].
  destruct (com_campo_auxiliar_lookup camada) as [indice Hidx].
  pose proof (lookupField_com_campo_auxiliar _ _ Hin) as Hj'.
  rewrite Hj in Hj'.
  assert (indice <> j) as Hij.
  { intros ->.
    destruct (lookupField_name _ _ _ (com_campo_auxiliar_names camada) Hidx)
      as (c & Hc & Hn).
    destruct (lookupField_name _ _ _ (com_campo_auxiliar_names_l _ _ Hin) Hj')
      as (c' & Hc' & Hn').
    congruence. }
  transitivity (coluna j (features (campo_auxiliar_numerado camada))).
  { unfold coluna. apply map_ext. intros feat. unfold projetar.
    by rewrite campo_auxiliar_numerado_fields, Hj'. }
  rewrite (campo_auxiliar_numerado_features _ _ Hidx).
  rewrite renumerar_coluna_ne by done.
  rewrite com_campo_auxiliar_coluna; [|done|by apply lookupField_lt in Hj].
  unfold coluna. apply map_ext. intros feat. unfold projetar. by rewrite Hj.
Qed.

Lemma selectedFeatureIds_campo_auxiliar_numerado camada :
  selectedFeatureIds (campo_auxiliar_numerado camada) = selectedFeatureIds camada.
Proof.
  unfold campo_auxiliar_numerado, com_campo_auxiliar.
  destruct (str_in_list id_row_nr (names (fields camada)));
    by destruct (lookupField _ id_row_nr).
Qed.

(** X12: every run on a vector layer leaves the selection and the record
    identifiers, in their order, as they were, and the schema either as it
    was or with an integer field [id_row_nr] added at its end; on a well
    formed layer the result is well formed and every field other than
    [id_row_nr] holds the values it held. *)
Theorem executar_filtragem_conserva_registros (iface : QgisInterface)
    (camada : QgsVectorLayer) :
  activeLayer iface = Some (VectorLayer camada) ->
  exists final,
    fst (executar_filtragem iface) = Some final
    /\ selectedFeatureIds final = selectedFeatureIds camada
    /\ map fid (features final) = map fid (features camada)
    /\ (fields final = fields camada
        \/ ((id_row_nr ∉ names (fields camada))
            /\ fields final = fields camada ++ [mkField id_row_nr QVariantInt]))
    /\ (wf_layer camada ->
        wf_layer final
        /\ forall nome_campo,
             nome_campo <> id_row_nr ->
             nome_campo ∈ names (fields camada) ->
             map (projetar final nome_campo) (features final)
             = map (projetar camada nome_campo) (features camada)).
Proof.
  intros Hativa.
  destruct (executar_filtragem_final _ _ Hativa) as (final & Hfst & Hfinal).
  exists final. split; [done|].
  assert (forall base s,
            final = with_subsetString base s ->
            selectedFeatureIds final = selectedFeatureIds base
            /\ features final = features base /\ fields final = fields base)
    as Hsub by (by intros base s ->).
  assert (final = camada
          \/ (selectedFeatureIds final = selectedFeatureIds camada
              /\ features final = features camada /\ fields final = fields camada)
          \/ (selectedFeatureIds final
              = selectedFeatureIds (campo_auxiliar_numerado camada)
              /\ features final = features (campo_auxiliar_numerado camada)
              /\ fields final = fields (campo_auxiliar_numerado camada)))
    as [->|[(Hs & Hf & Hc)|(Hs & Hf & Hc)]].
  { destruct Hfinal as [?|[s [H|H]]]; [by left|right; left|right; right];
      by apply (Hsub _ s). }
  - split; [done|]. split; [done|]. split; [by left|]. by intros Hwf.
  - rewrite Hs, Hf, Hc. split; [done|]. split; [done|]. split; [by left|].
    intros Hwf. split; [unfold wf_layer; by rewrite Hf, Hc|].
    intros nome _ _. apply map_ext. intros feat.
    unfold projetar. by rewrite Hc.
  - rewrite Hs, Hf, Hc.
    destruct (com_campo_auxiliar_lookup camada) as [indice Hidx].
    split; [apply selectedFeatureIds_campo_auxiliar_numerado|].
    split.
    { rewrite (campo_auxiliar_numerado_features _ _ Hidx).
      by rewrite renumerar_fid, com_campo_auxiliar_fid. }
    split.
    { rewrite campo_auxiliar_numerado_fields, com_campo_auxiliar_fields.
      unfold campos_com_auxiliar. case_decide; [by left|by right]. }
    intros Hwf. split.
    { pose proof (campo_auxiliar_numerado_wf _ Hwf) as Hwf'.
      unfold wf_layer in *. by rewrite Hf, Hc. }
    intros nome Hne Hin.
    rewrite <- (campo_auxiliar_numerado_projetar camada nome) by done.
    apply map_ext. intros feat. unfold projetar. by rewrite Hc.
Qed.

Lemma executar_filtragem_conserva_registros_witness :
  exists final,
    fst (executar_filtragem
           (mkIface (Some (VectorLayer camada_sem_aux)) QMessageBoxYes))
    = Some final
    /\ map (projetar final "geom") (features final) = [VNone; VNone; VNone].
Proof.
  destruct (executar_filtragem_conserva_registros
              (mkIface (Some (VectorLayer camada_sem_aux)) QMessageBoxYes)
              camada_sem_aux eq_refl)
    as (final & Hfst & _ & _ & _ & Hwf).
  exists final. split; [exact Hfst|].
  destruct Hwf as [_ Hproj]; [repeat constructor|].
  rewrite (Hproj "geom"); [reflexivity|discriminate|].
  apply elem_of_cons. by left.
Defined.

End Conserva.

(** ** Filtering by the auxiliary field *)

Section PorPosicao.

Implicit Types (camada : QgsVectorLayer).

Lemma posicoes_selecionadas_fid ids i feats feats' :
  map fid feats = map fid feats' ->
  posicoes_selecionadas ids i feats = posicoes_selecionadas ids i feats'.
Proof.
  revert i feats'. induction feats as [|feat resto IH]; intros i [|feat' resto'];
    try done.
  simpl. intros [= Hf Hr]. rewrite Hf, (IH (i + 1) resto' Hr). done.
Qed.

Lemma renumerar_selecionados indice ids i feats :
  Forall (fun feat => (indice < length (attributes feat))%nat) feats ->
  coluna indice (filter (fun feat => fid feat ∈ ids) (renumerar indice i feats))
  = map VInt (posicoes_selecionadas ids i feats).
Proof.
  unfold coluna. intros Hlen. revert i.
  induction Hlen as [|feat resto Hfeat _ IH]; intros i; [done|].
  simpl. rewrite filter_cons. simpl.
  destruct (decide (fid feat ∈ ids)); [|apply IH].
  simpl. rewrite IH. f_equal. unfold attribute. simpl.
  by rewrite list_lookup_insert_eq.
Qed.

(** After the numbering, the values read for the selected records are
    their positions. *)
Lemma valores_selecionados_campo_auxiliar camada ids :
  wf_layer camada ->
  valores_selecionados (campo_auxiliar_numerado camada) id_row_nr ids
  = map pretty (posicoes_selecionadas ids 0 (features camada)).
Proof.
  intros Hwf.
  destruct (com_campo_auxiliar_lookup camada) as [indice Hidx].
  unfold valores_selecionados, getFeatures_fids.
  rewrite (campo_auxiliar_numerado_features _ _ Hidx).
  transitivity (map str (coluna indice
                  (filter (fun feat => fid feat ∈ ids)
                     (renumerar indice 0 (features (com_campo_auxiliar camada)))))).
  { unfold coluna. rewrite map_map. apply map_ext. intros feat.
    unfold projetar. by rewrite campo_auxiliar_numerado_fields, Hidx. }
  rewrite renumerar_selecionados.
  - rewrite map_map. simpl.
    by rewrite (posicoes_selecionadas_fid ids 0 _ (features camada))
      by apply com_campo_auxiliar_fid.
  - apply wf_layer_lt; [by apply com_campo_auxiliar_wf|].
    by apply lookupField_lt in Hidx.
Qed.

Lemma field_campo_auxiliar camada :
  exists c,
    field (campo_auxiliar_numerado camada) id_row_nr = Ret c
    /\ name c = id_row_nr
    /\ (c ∈ fields camada \/ c = mkField id_row_nr QVariantInt).
Proof.
  destruct (com_campo_auxiliar_lookup camada) as [indice Hidx].
  rewrite (lookupField_exato _ _ (com_campo_auxiliar_names camada)) in Hidx.
  destruct (indexFromName_name _ _ _ Hidx) as (c & Hc & Hn).
  exists c. unfold field, index.
  rewrite campo_auxiliar_numerado_fields, Hidx, Hc.
  split; [done|]. split; [done|].
  rewrite com_campo_auxiliar_fields in Hc. unfold campos_com_auxiliar in Hc.
  apply (list_elem_of_lookup_2 _ indice) in Hc.
  case_decide; [by left|].
  apply elem_of_app in Hc as [?|Hc]; [by left|].
  apply list_elem_of_singleton in Hc as ->. by right.
Qed.

End PorPosicao.

(** X13: on a well-formed editable [kml], [file] or [temporary] layer that
    accepts the edit session and on which no field qualifies at any tier
    (an existing [id_row_nr], if any, not being a text field), the run sets
    the filter ["id_row_nr" IN (p1,p2,...)] where the [p] are the 1-based
    positions, in iteration order, of the selected records. *)
Theorem sem_campo_qualificado_filtra_por_posicao (iface : QgisInterface)
    (camada : QgsVectorLayer) :
  chega_ao_try iface camada ->
  wf_layer camada ->
  kml_file_temporary (identificar_tipo_camada camada) = true ->
  camada_editavel camada = true ->
  edit_ok camada = true ->
  (forall g c, g ∈ prioridades -> c ∈ fields camada ->
     qualifica_em camada g c = false) ->
  (forall c, c ∈ fields camada -> name c = id_row_nr ->
     type c ∉ [QVariantString; QVariantChar]) ->
  exists final,
    fst (executar_filtragem iface) = Some final
    /\ fields final = campos_com_auxiliar camada
    /\ subsetString final
       = String aspas id_row_nr +:+ String aspas " IN ("
           +:+ Py.join ","
                 (map pretty
                    (posicoes_selecionadas (selectedFeatureIds camada) 0
                       (features camada)))
           +:+ ")".
Proof.
  intros Hchega Hwf Hk He Hok Hnenhum Htipo.
  set (w0 := filtro_limpo (mkMundo camada (aviso camada))).
  assert (aceita_campo_auxiliar (camada_de w0) = true) as Hac.
  { unfold aceita_campo_auxiliar. cbn [w0 filtro_limpo camada_de].
    rewrite identificar_tipo_camada_filtro.
    change (camada_editavel (with_subsetString camada ""))
      with (camada_editavel camada).
    rewrite He. by destruct (identificar_tipo_camada camada). }
  assert (identificar_campo_filtro w0
          = (Ret (Some id_row_nr),
             mkMundo (campo_auxiliar_numerado (camada_de w0))
                     (eventos w0 ++ [EditSession]))) as Hsel.
  { rewrite identificar_campo_filtro_editavel by done.
    assert (primeiro_grupo (camada_de w0) prioridades = None) as ->
      by (apply primeiro_grupo_None; exact Hnenhum).
    by apply gerenciar_campo_auxiliar_ok. }
  destruct (field_campo_auxiliar (camada_de w0)) as (c & Hfield & Hn & Hc).
  assert (type c ∉ [QVariantString; QVariantChar]) as Hc'.
  { destruct Hc as [Hc| ->]; [by apply Htipo|].
    cbn [type]. rewrite !not_elem_of_cons. repeat split; try done.
    apply not_elem_of_nil. }
  destruct (field_Ret _ _ _ Hfield) as [indice Hidx].
  rewrite (executar_filtragem_run _ _ Hchega).
  rewrite filtrar_protegido_run, filtrar_try_run. fold w0. rewrite Hsel.
  cbn [sem_campo]. change (String.eqb id_row_nr "") with false.
  change (default "" (Some id_row_nr)) with id_row_nr. cbn zeta iota beta.
  cbn [camada_de].
  rewrite (coletar_valores_Ret _ _ _ _ Hidx), Hfield.
  eexists. split; [reflexivity|].
  cbn [snd camada_de fields subsetString with_subsetString].
  split.
  - rewrite campo_auxiliar_numerado_fields, com_campo_auxiliar_fields. done.
  - unfold expressao, valores_formatados.
    rewrite bool_decide_eq_false_2 by done.
    fold (valores_selecionados (campo_auxiliar_numerado (camada_de w0))
            id_row_nr (selectedFeatureIds camada)).
    by rewrite valores_selecionados_campo_auxiliar.
Qed.

Lemma sem_campo_qualificado_filtra_por_posicao_witness :
  exists final,
    fst (executar_filtragem
           (mkIface (Some (VectorLayer camada_so_geom)) QMessageBoxYes))
    = Some final
    /\ subsetString final
       = String aspas "id_row_nr" +:+ String aspas " IN (2,4)".
Proof.
  destruct (sem_campo_qualificado_filtra_por_posicao
              (mkIface (Some (VectorLayer camada_so_geom)) QMessageBoxYes)
              camada_so_geom)
    as (final & Hfst & _ & Hsub).
  - split; [reflexivity|]. split; [reflexivity|]. split; [discriminate|done].
  - repeat constructor.
  - reflexivity.
  - reflexivity.
  - reflexivity.
  - intros g c Hg Hc. simpl in Hc.
    apply elem_of_cons in Hc as [->|[]%elem_of_nil].
    unfold prioridades in Hg. rewrite !elem_of_cons, elem_of_nil in Hg.
    destruct Hg as [->|[->|[->|[->|[->|[]]]]]]; reflexivity.
  - intros c Hc Hn. simpl in Hc.
    apply elem_of_cons in Hc as [->|[]%elem_of_nil]. discriminate Hn.
  - exists final. split; [exact Hfst|]. rewrite Hsub. reflexivity.
Defined.

(** ** Classification and the catalogue *)

Section Classificacao.

Implicit Types (camada : QgsVectorLayer).

Lemma lower_ascii_upper_ascii c :
  Py.lower_ascii (Py.upper_ascii c) = Py.lower_ascii c.
Proof. by destruct c as [[] [] [] [] [] [] [] []]. Qed.

Lemma lower_upper s : Py.lower (Py.upper s) = Py.lower s.
Proof.
  induction s as [|c s IH]; [done|].
  simpl. by rewrite lower_ascii_upper_ascii, IH.
Qed.

(** X14: on ASCII text the class of a layer does not depend on the case of
    its provider name and of its source: upper-casing both changes
    nothing. *)
Theorem identificar_tipo_camada_ignora_caixa (camada : QgsVectorLayer) :
  Py.isascii (provider_name camada) = true ->
  Py.isascii (source camada) = true ->
  identificar_tipo_camada
    (com_provedor_fonte camada (Py.upper (provider_name camada))
       (Py.upper (source camada)))
  = identificar_tipo_camada camada.
Proof.
  intros _ _. unfold identificar_tipo_camada.
  cbn [provider_name source isTemporary com_provedor_fonte].
  by rewrite !lower_upper.
Qed.

(** [camada_fid] is classified as a file under [OGR] and [/DADOS/LOTES.SHP]
    too. *)
Lemma identificar_tipo_camada_ignora_caixa_witness :
  identificar_tipo_camada (com_provedor_fonte camada_fid "OGR" "/DADOS/LOTES.SHP")
  = Tfile.
Proof.
  exact (identificar_tipo_camada_ignora_caixa camada_fid eq_refl eq_refl).
Defined.

Lemma str_in_list_provedores p :
  str_in_list p provedores_database = true <-> p ∈ provedores_database.
Proof. apply str_in_list_elem_of. Qed.

Lemma identificar_tipo_camada_database camada :
  identificar_tipo_camada camada = Tdatabase ->
  Py.lower (provider_name camada) ∈ provedores_database.
Proof.
  unfold identificar_tipo_camada. fold provedores_database.
  destruct (str_in_list (Py.lower (provider_name camada)) provedores_database)
    eqn:Hdb; [intros _; by apply str_in_list_provedores|].
  repeat (match goal with |- context [if ?b then _ else _] =>
            destruct b end); done.
Qed.

(** X15: a layer is classified [wfs] exactly when its lower-cased source
    contains [wfs] or its provider is [wfs]; it is classified [database]
    exactly when its provider is one of the six database providers and its
    source does not contain [wfs]: a database table whose source mentions
    [wfs] anywhere is treated as a remote service. *)
Theorem identificar_tipo_camada_wfs_database (camada : QgsVectorLayer) :
  let provedor := Py.lower (provider_name camada) in
  let uri := Py.lower (source camada) in
  (identificar_tipo_camada camada = Twfs
   <-> substring_of "wfs" uri \/ provedor = "wfs")
  /\ (identificar_tipo_camada camada = Tdatabase
      <-> provedor ∈ provedores_database /\ ~ substring_of "wfs" uri).
Proof.
  cbn zeta. unfold identificar_tipo_camada.
  fold provedores_database.
  destruct (Py.contains "wfs" (Py.lower (source camada))) eqn:Hwfs.
  - apply contains_spec in Hwfs. cbn [orb]. split.
    + split; [by left|done].
    + split; [done|]. by intros [_ ?].
  - assert (~ substring_of "wfs" (Py.lower (source camada))) as Hn.
    { intros H%contains_spec. congruence. }
    cbn [orb].
    destruct (String.eqb_spec (Py.lower (provider_name camada)) "wfs") as [Hp|Hp].
    + split; [split; [by right|done]|]. split; [done|].
      intros [Hin _]. rewrite Hp in Hin. unfold provedores_database in Hin.
      rewrite !elem_of_cons, elem_of_nil in Hin.
      destruct Hin as [H|[H|[H|[H|[H|[H|[]]]]]]]; discriminate H.
    + destruct (str_in_list (Py.lower (provider_name camada)) provedores_database)
        eqn:Hdb.
      * apply str_in_list_provedores in Hdb.
        split; [|split; [intros _; by split|done]].
        split; [done|]. by intros [?|?].
      * assert (Py.lower (provider_name camada) ∉ provedores_database) as Hdb'.
        { intros H%str_in_list_provedores. congruence. }
        split.
        -- split; [|by intros [?|?]].
           repeat (match goal with |- context [if ?b then _ else _] =>
                     destruct b end); done.
        -- split; [|by intros [? _]].
           repeat (match goal with |- context [if ?b then _ else _] =>
                     destruct b end); done.
Qed.

(** X16: [obter_chave_primaria] has no catalogue query exactly for the
    providers outside its five families; every layer classified [database]
    has one, so its [else: return None] is never reached from the database
    branch of the selector. *)
Theorem camada_database_tem_consulta (camada : QgsVectorLayer) :
  (montar_consulta camada = None
   <-> Py.lower (provider_name camada) ∉ ["postgres"; "postgresql"; "mysql"; "mssql"; "spatialite"; "oracle"])
  /\ (identificar_tipo_camada camada = Tdatabase ->
      exists sql, montar_consulta camada = Some sql).
Proof.
  assert (montar_consulta camada = None
          <-> Py.lower (provider_name camada)
              ∉ ["postgres"; "postgresql"; "mysql"; "mssql"; "spatialite"; "oracle"])
    as Hnone.
  { unfold montar_consulta, str_in_list. cbn [existsb].
    rewrite !not_elem_of_cons.
    destruct (String.eqb_spec (Py.lower (provider_name camada)) "postgres");
      [simpl; split; [done|tauto]|].
    destruct (String.eqb_spec (Py.lower (provider_name camada)) "postgresql");
      [simpl; split; [done|tauto]|].
    simpl.
    destruct (String.eqb_spec (Py.lower (provider_name camada)) "mysql");
      [split; [done|tauto]|].
    destruct (String.eqb_spec (Py.lower (provider_name camada)) "mssql");
      [split; [done|tauto]|].
    destruct (String.eqb_spec (Py.lower (provider_name camada)) "spatialite");
      [split; [done|tauto]|].
    destruct (String.eqb_spec (Py.lower (provider_name camada)) "oracle");
      [split; [done|tauto]|].
    split; [|done]. intros _. repeat split; try done. apply not_elem_of_nil. }
  split; [exact Hnone|].
  intros Hdb.
  destruct (montar_consulta camada) as [sql|] eqn:Hsql; [by exists sql|].
  exfalso. apply (proj1 Hnone eq_refl).
  apply identificar_tipo_camada_database in Hdb as Hin.
  unfold provedores_database in Hin.
  rewrite !elem_of_cons, elem_of_nil in Hin |- *. tauto.
Qed.

End Classificacao.

Lemma camada_database_tem_consulta_witness :
  exists sql, montar_consulta camada_pg = Some sql.
Proof.
  apply (proj2 (camada_database_tem_consulta camada_pg)). reflexivity.
Defined.

Section Consultas.

Implicit Types (camada : QgsVectorLayer) (w : mundo).

Lemma contains_ponto c r :
  Py.contains "." (String c r) = Ascii.eqb c "."%char || Py.contains "." r.
Proof.
  cbn [Py.contains String.prefix].
  destruct (ascii_dec "." c) as [<-|Hne].
  - by destruct r.
  - assert (Ascii.eqb c "." = false) as ->; [|done].
    apply Ascii.eqb_neq. congruence.
Qed.

Lemma after_last_dot_spec s :
  Py.contains "." (Py.after_last_dot s) = false
  /\ (Py.contains "." s = true ->
      exists pre, s = pre +:+ "." +:+ Py.after_last_dot s)
  /\ (Py.contains "." s = false -> Py.after_last_dot s = s).
Proof.
  induction s as [|c r (IH1 & IH2 & IH3)]; [done|].
  cbn [Py.after_last_dot]. rewrite contains_ponto.
  destruct (Py.contains "." r) eqn:Hr.
  - rewrite orb_true_r. split; [done|]. split; [|done]. intros _.
    destruct (IH2 eq_refl) as [pre Hpre]. exists (String c pre).
    change (String c pre +:+ "." +:+ Py.after_last_dot r)
      with (String c (pre +:+ "." +:+ Py.after_last_dot r)).
    by f_equal.
  - rewrite orb_false_r. destruct (Ascii.eqb_spec c ".") as [->|Hne].
    + split; [done|]. split; [|done]. intros _. by exists "".
    + rewrite contains_ponto, Hr, orb_false_r.
      split; [by apply Ascii.eqb_neq|]. done.
Qed.

End Consultas.

(** X17: for the provider [mssql] the catalogue is asked about the table
    name without its schema: the name in the query has no dot, it is what
    follows the last dot of the table of the URI, and the table itself when
    that has no dot. *)
Theorem montar_consulta_mssql_tabela_sem_esquema (camada : QgsVectorLayer) :
  Py.lower (provider_name camada) = "mssql" ->
  exists tabela,
    montar_consulta camada = Some (MssqlKeyColumnUsage tabela)
    /\ ~ substring_of "." tabela
    /\ (substring_of "." (uri_table (dataSourceUri camada)) ->
        exists pre, uri_table (dataSourceUri camada) = pre +:+ "." +:+ tabela)
    /\ (~ substring_of "." (uri_table (dataSourceUri camada)) ->
        tabela = uri_table (dataSourceUri camada)).
Proof.
  intros Hp. unfold montar_consulta. rewrite Hp. cbn [str_in_list existsb String.eqb Ascii.eqb Bool.eqb orb].
  simpl.
  destruct (after_last_dot_spec (uri_table (dataSourceUri camada)))
    as (Hsem & Hcom & Hmesmo).
  destruct (Py.contains "." (uri_table (dataSourceUri camada))) eqn:Hc.
  - eexists. split; [reflexivity|]. split.
    + intros H%contains_spec. congruence.
    + split; [by intros _; apply Hcom|]. intros Hn. exfalso. apply Hn.
      by apply contains_spec.
  - eexists. split; [reflexivity|]. split.
    + intros H%contains_spec. congruence.
    + split; [|done]. intros H%contains_spec. congruence.
Qed.

Lemma montar_consulta_mssql_tabela_sem_esquema_witness :
  montar_consulta camada_mssql = Some (MssqlKeyColumnUsage "vias").
Proof.
  destruct (montar_consulta_mssql_tabela_sem_esquema camada_mssql eq_refl)
    as (tabela & Hsql & _ & _ & _).
  rewrite Hsql. vm_compute in Hsql. by injection Hsql as <-.
Defined.

Section Resolver.

Implicit Types (camada : QgsVectorLayer) (w : mundo).

Lemma spatialite_pk_primeira resultado antes linha depois :
  resultado = antes ++ linha :: depois ->
  Forall linha_sem_pk antes ->
  spatialite_pk resultado
  = match linha !! 5%nat with
    | Some pk =>
        if decide (pk = VInt 1) then index linha 1 else spatialite_pk depois
    | None => Raise IndexError
    end.
Proof.
  intros -> Hantes. induction Hantes as [|l antes (v & Hv & Hne) _ IH].
  - simpl. unfold index at 1. by destruct (linha !! 5%nat).
  - simpl. unfold index at 1. rewrite Hv. simpl.
    by rewrite decide_False.
Qed.

Lemma spatialite_pk_sem_pk resultado :
  Forall linha_sem_pk resultado -> spatialite_pk resultado = Ret VNone.
Proof.
  induction 1 as [|l resto (v & Hv & Hne) _ IH]; [done|].
  simpl. unfold index at 1. rewrite Hv. simpl. by rewrite decide_False.
Qed.

End Resolver.

(** X18: for the provider [spatialite] the resolver returns the second
    cell of the first row of [PRAGMA table_info] whose sixth cell is 1; a
    row of fewer than six cells met before that ends the search with
    [None] and a warning in the log; when no row is flagged it returns
    [None] silently. *)
Theorem obter_chave_primaria_spatialite (w : mundo)
    (resultado : list (list value)) :
  Py.lower (provider_name (camada_de w)) = "spatialite" ->
  executeSql (camada_de w)
    (SpatialitePragma (uri_table (dataSourceUri (camada_de w))))
  = Ret resultado ->
  (forall antes linha depois nome,
     resultado = antes ++ linha :: depois ->
     Forall linha_sem_pk antes ->
     linha !! 5%nat = Some (VInt 1) ->
     linha !! 1%nat = Some nome ->
     obter_chave_primaria w = (Ret nome, w))
  /\ (forall antes linha depois,
        resultado = antes ++ linha :: depois ->
        Forall linha_sem_pk antes ->
        linha !! 5%nat = None ->
        obter_chave_primaria w
        = (Ret VNone,
           mkMundo (camada_de w) (eventos w ++ [log_erro_pk IndexError])))
  /\ (Forall linha_sem_pk resultado ->
      obter_chave_primaria w = (Ret VNone, w)).
Proof.
  intros Hp Hsql.
  assert (obter_chave_primaria_try (camada_de w) = spatialite_pk resultado)
    as Htry.
  { unfold obter_chave_primaria_try, montar_consulta. rewrite Hp. simpl.
    by rewrite Hsql. }
  rewrite obter_chave_primaria_run, Htry. split; [|split].
  - intros antes linha depois nome Hres Hantes H5 H1.
    rewrite (spatialite_pk_primeira _ _ _ _ Hres Hantes), H5.
    rewrite decide_True by done. unfold index. by rewrite H1.
  - intros antes linha depois Hres Hantes H5.
    by rewrite (spatialite_pk_primeira _ _ _ _ Hres Hantes), H5.
  - intros Hsem. by rewrite spatialite_pk_sem_pk.
Qed.

Lemma obter_chave_primaria_spatialite_witness :
  obter_chave_primaria (mkMundo camada_spatialite [])
  = (Ret (VStr "pk_uid"), mkMundo camada_spatialite []).
Proof.
  apply (proj1 (obter_chave_primaria_spatialite
                  (mkMundo camada_spatialite []) _ eq_refl eq_refl)
           [[VInt 0; VStr "geom"; VStr "POINT"; VInt 0; VNone; VInt 0]]
           [VInt 1; VStr "pk_uid"; VStr "INTEGER"; VInt 1; VNone; VInt 1]
           []).
  - reflexivity.
  - constructor; [|constructor]. exists (VInt 0). by split.
  - reflexivity.
  - reflexivity.
Defined.

(** X19: for the other providers with a query the resolver looks at the
    first row only: no rows give [None]; otherwise the first cell of the
    first row is returned (one column of a composite key), and an empty
    first row gives [None] with a warning in the log. *)
Theorem obter_chave_primaria_primeira_celula (w : mundo) (sql : consulta)
    (resultado : list (list value)) :
  montar_consulta (camada_de w) = Some sql ->
  Py.lower (provider_name (camada_de w)) <> "spatialite" ->
  executeSql (camada_de w) sql = Ret resultado ->
  obter_chave_primaria w
  = match resultado with
    | [] => (Ret VNone, w)
    | [] :: _ =>
        (Ret VNone,
         mkMundo (camada_de w) (eventos w ++ [log_erro_pk IndexError]))
    | (pk :: _) :: _ => (Ret pk, w)
    end.
Proof.
  intros Hsql Hp Hexec. rewrite obter_chave_primaria_run.
  unfold obter_chave_primaria_try. rewrite Hsql. simpl. rewrite Hexec.
  apply String.eqb_neq in Hp. rewrite Hp.
  destruct resultado as [|[|pk linha] resto]; done.
Qed.

Lemma obter_chave_primaria_primeira_celula_witness :
  obter_chave_primaria (mkMundo camada_pg [])
  = (Ret (VStr "gid"), mkMundo camada_pg []).
Proof.
  apply (obter_chave_primaria_primeira_celula (mkMundo camada_pg [])
           (PgIndex "public" "lotes") [[VStr "gid"]]);
    [reflexivity|discriminate|reflexivity].
Defined.

(** X20: two records whose strings in a field differ only in case or in
    surrounding whitespace make [campo_e_unico] answer False for it. *)
Theorem campo_e_unico_ignora_caixa_e_espacos (camada : QgsVectorLayer)
    (nome_campo : string) (indice i j : nat) (f1 f2 : QgsFeature)
    (s1 s2 : string) :
  lookupField (fields camada) nome_campo = Some indice ->
  i <> j ->
  features camada !! i = Some f1 ->
  features camada !! j = Some f2 ->
  attribute f1 indice = VStr s1 ->
  attribute f2 indice = VStr s2 ->
  Py.lower (Py.strip s1) = Py.lower (Py.strip s2) ->
  campo_e_unico camada nome_campo = false.
Proof.
  intros Hidx Hij Hi Hj H1 H2 Hnorm. apply not_true_is_false.
  intros [_ Hnd]%campo_e_unico_NoDup. apply Hij.
  unfold sem_valores_repetidos in Hnd.
  rewrite (valores_normalizados_lookup _ _ _ Hidx) in Hnd.
  apply (NoDup_lookup _ i j (VStr (Py.lower (Py.strip s1))) Hnd).
  - rewrite list_lookup_fmap, Hi. simpl. by rewrite H1.
  - rewrite list_lookup_fmap, Hj. simpl. by rewrite H2, Hnorm.
Qed.

Lemma campo_e_unico_ignora_caixa_e_espacos_witness :
  campo_e_unico camada_mssql "nome" = false.
Proof.
  apply (campo_e_unico_ignora_caixa_e_espacos camada_mssql "nome" 0 0 1
           (mkFeature 1 [VStr "Rua A"]) (mkFeature 2 [VStr "rua a "])
           "Rua A" "rua a "); try reflexivity.
  lia.
Defined.

(** ** Translation *)

Section Traducao.

Lemma append_nil_r (s : string) : s +:+ "" = s.
Proof.
  induction s as [|c s IH]; [done|].
  change (String c (s +:+ "") = String c s). by rewrite IH.
Qed.

Lemma append_assoc (a b c : string) : (a +:+ b) +:+ c = a +:+ (b +:+ c).
Proof.
  induction a as [|x a IH]; [done|].
  change (String x ((a +:+ b) +:+ c) = String x (a +:+ (b +:+ c))).
  by rewrite IH.
Qed.

Lemma prefix_refl (s : string) : String.prefix s s = true.
Proof. apply prefix_spec. exists "". by rewrite append_nil_r. Qed.

Lemma replace_scan_saltar old new (s : string) (k : nat) :
  (String.length s <= k)%nat -> replace_scan old new k s = "".
Proof.
  revert k. induction s as [|c s IH]; intros k Hk; [done|].
  simpl in *. destruct k as [|k]; [lia|]. apply IH. lia.
Qed.

(** Replacing a text that is the whole string gives the replacement. *)
Lemma py_replace_tudo old new :
  old <> "" -> py_replace old new old = new.
Proof.
  destruct old as [|c r]; [done|]. intros _.
  unfold py_replace. cbn [replace_scan]. rewrite prefix_refl.
  rewrite replace_scan_saltar; [apply append_nil_r|].
  simpl. lia.
Qed.

(** No key of the dictionary contains the marker of the warning. *)
Lemma dict_get_marcador texto :
  Py.contains marcador_aviso texto = true ->
  dict_get translations texto texto = texto.
Proof.
  intros Hm. unfold translations. cbn [dict_get].
  repeat (match goal with
          | |- context [String.eqb ?k texto] =>
              destruct (String.eqb_spec k texto) as [<-|_];
                [vm_compute in Hm; discriminate Hm|]
          end).
  done.
Qed.

Lemma cauda_aviso_en_marcador :
  exists suf, cauda_aviso_en = " " +:+ marcador_aviso +:+ suf.
Proof. eexists. vm_compute. reflexivity. Qed.

Lemma aviso_en_marcador (n : nat) :
  Py.contains marcador_aviso (pretty n +:+ cauda_aviso_en) = true.
Proof.
  apply contains_spec. destruct cauda_aviso_en_marcador as [suf ->].
  exists (pretty n +:+ " "), suf. by rewrite append_assoc.
Qed.

End Traducao.

(** X21: under any language other than the two Portuguese ones [traduzir]
    returns its text; under the Portuguese ones every key of its dictionary
    is returned translated, and a text that is no key and does not hold the
    marker of the warning is returned as it is. *)
Theorem traduzir_locale_tabela (locale texto : string) (n : nat) :
  (locale <> "Portuguese (Brazil)" -> locale <> "Portuguese" ->
   traduzir_locale locale texto n = texto)
  /\ (locale = "Portuguese (Brazil)" \/ locale = "Portuguese" ->
      (forall traducao, (texto, traducao) ∈ translations ->
         traduzir_locale locale texto n = traducao)
      /\ (texto ∉ translations.*1 ->
          ~ substring_of marcador_aviso texto ->
          traduzir_locale locale texto n = texto)).
Proof.
  unfold traduzir_locale. split.
  - intros H1%String.eqb_neq H2%String.eqb_neq. by rewrite H1, H2.
  - intros Hpt.
    assert (String.eqb locale "Portuguese (Brazil)"
            || String.eqb locale "Portuguese" = true) as ->.
    { destruct Hpt as [-> | ->]; reflexivity. }
    split.
    + intros traducao Hin. unfold translations in Hin.
      rewrite !elem_of_cons, elem_of_nil in Hin.
      destruct Hin as [H|[H|[H|[H|[H|[H|[H|[H|[H|[H|[H|[]]]]]]]]]]]];
        injection H as -> ->; reflexivity.
    + intros Hnk Hnm.
      assert (Py.contains marcador_aviso texto = false) as ->.
      { apply not_true_is_false. by intros H%contains_spec. }
      revert Hnk. unfold translations. cbn [fmap list_fmap fst dict_get].
      rewrite !not_elem_of_cons.
      intros (H1 & H2 & H3 & H4 & H5 & H6 & H7 & H8 & H9 & H10 & H11 & _).
      repeat (match goal with
              | |- context [String.eqb ?k texto] =>
                  destruct (String.eqb_spec k texto) as [Hk|_];
                    [by subst texto|]
              end).
      done.
Qed.

Lemma traduzir_locale_tabela_witness :
  traduzir_locale "Portuguese (Brazil)" "No features selected" 0
  = "Nenhuma feição selecionada".
Proof.
  apply (proj1 (proj2 (traduzir_locale_tabela "Portuguese (Brazil)"
                         "No features selected" 0) (or_introl eq_refl))).
  unfold translations. rewrite !elem_of_cons. right. right. by left.
Defined.

(** X22: the message of the [except] clause is built before it is
    translated, so with a non-empty exception text it is no key of the
    dictionary: under every language [traduzir] returns it in English. *)
Theorem traduzir_locale_erro_fica_em_ingles (locale msg : string) (n : nat) :
  msg <> "" ->
  ~ substring_of marcador_aviso msg ->
  traduzir_locale locale ("Error during filtering: " +:+ msg) n
  = "Error during filtering: " +:+ msg.
Proof.
  intros Hmsg Hnm. unfold traduzir_locale.
  destruct (String.eqb locale "Portuguese (Brazil)"
            || String.eqb locale "Portuguese"); [|done].
  assert (Py.contains marcador_aviso msg = false) as Hc.
  { apply not_true_is_false. by intros H%contains_spec. }
  destruct msg as [|c r]; [done|].
  assert (Py.contains marcador_aviso ("Error during filtering: " +:+ String c r)
          = Py.contains marcador_aviso (String c r)) as -> by reflexivity.
  rewrite Hc. reflexivity.
Qed.

Lemma traduzir_locale_erro_fica_em_ingles_witness :
  traduzir_locale "Portuguese" "Error during filtering: argument has unexpected type" 0
  = "Error during filtering: argument has unexpected type".
Proof.
  apply (traduzir_locale_erro_fica_em_ingles "Portuguese"
           "argument has unexpected type" 0); [discriminate|].
  intros H%contains_spec. vm_compute in H. discriminate H.
Defined.

(** X23: under the Portuguese languages the text of the large-selection
    warning for [n] records is returned as the Portuguese text for [n]
    records. *)
Theorem traduzir_locale_aviso (locale : string) (n : nat) :
  locale = "Portuguese (Brazil)" \/ locale = "Portuguese" ->
  traduzir_locale locale (pretty n +:+ cauda_aviso_en) n
  = pretty n +:+ cauda_aviso_pt.
Proof.
  intros Hpt. unfold traduzir_locale.
  assert (String.eqb locale "Portuguese (Brazil)"
          || String.eqb locale "Portuguese" = true) as ->.
  { destruct Hpt as [-> | ->]; reflexivity. }
  cbn zeta. rewrite aviso_en_marcador.
  rewrite dict_get_marcador by apply aviso_en_marcador.
  apply py_replace_tudo.
  destruct cauda_aviso_en_marcador as [suf ->].
  by destruct (pretty n).
Qed.

Lemma traduzir_locale_aviso_witness :
  traduzir_locale "Portuguese" (pretty 25%nat +:+ cauda_aviso_en) 25
  = pretty 25%nat +:+ cauda_aviso_pt.
Proof. apply (traduzir_locale_aviso "Portuguese" 25). by right. Defined.
